(** * YouTube subtitles to immersion flashcards: a shallow embedding of
      [docs/inspo/003_yt_as_immersion_content.py]

    The script reads a list of video ids, downloads the subtitles of each
    video, asks a completion service for vocabulary on every subtitle line,
    and accumulates resources, vocab, translations and notes in four global
    lists with four global id counters, which it writes out at the end.

    Python values are modelled as follows.
    - A [str] is the list of its Unicode code points.
    - The value returned by [json.loads] is a [pyval].
    - A dict literal such as [vocab_entry] is a record; a key that the code
      sets only under an [if] is an [option] field ([None] = key absent).
    - An exception is [None] in the [option] monad; the module globals are
      the [State] record, threaded explicitly, so that what was done before
      an exception is kept.
    - Calls that leave the process (transcript download, completion, file
      system) are answered by a [World] and recorded in [trace].
    Diagnostic [print]s are not modelled. *)

From Stdlib Require Import ZArith NArith Ascii String Decimal DecimalN Floats.
From stdpp Require Import base option list gmap sets.

#[local] Set Warnings "-register-all,-clear-no-such-hyp".

Local Open Scope N_scope.

(** ** Strings *)

Abbreviation str := (list N).

(** A literal of the source whose characters are all below U+0100. *)
Definition lit (s : string) : str :=
  map N_of_ascii (list_ascii_of_string s).

Definition nl : str := [10].

(** [str.isspace] on one code point (CPython's [_PyUnicode_IsWhitespace]). *)
Definition is_space (c : N) : bool :=
  ((9 <=? c) && (c <=? 13)) || ((28 <=? c) && (c <=? 32))
  || (c =? 133) || (c =? 160) || (c =? 5760)
  || ((8192 <=? c) && (c <=? 8202))
  || (c =? 8232) || (c =? 8233) || (c =? 8239) || (c =? 8287) || (c =? 12288).

Fixpoint lstrip (s : str) : str :=
  match s with
  | c :: s' => if is_space c then lstrip s' else s
  | [] => []
  end.

Definition rstrip (s : str) : str := reverse (lstrip (reverse s)).

(** [s.strip()] *)
Definition strip (s : str) : str := rstrip (lstrip s).

(** [bool(s)] for a string. *)
Definition truthy_str (s : str) : bool :=
  match s with [] => false | _ => true end.

(** [s.split(sep)] for a one-character separator: the pieces between the
    occurrences of [sep], so one more piece than there are occurrences. *)
Fixpoint split (sep : N) (s : str) : list str :=
  match s with
  | [] => [[]]
  | c :: s' =>
      if c =? sep then [] :: split sep s'
      else match split sep s' with
           | p :: ps => (c :: p) :: ps
           | [] => [[c]]
           end
  end.

(** [needle in s] for two strings. *)
Fixpoint starts_with (needle s : str) : bool :=
  match needle, s with
  | [], _ => true
  | _ :: _, [] => false
  | a :: needle', b :: s' => (a =? b) && starts_with needle' s'
  end.

Fixpoint str_contains (needle s : str) : bool :=
  starts_with needle s ||
  match s with
  | [] => false
  | _ :: s' => str_contains needle s'
  end.

(** [str(n)] for a non-negative integer: its decimal digits. *)
Fixpoint uint_digits (d : Decimal.uint) : str :=
  match d with
  | Decimal.Nil => []
  | Decimal.D0 d' => 48 :: uint_digits d'
  | Decimal.D1 d' => 49 :: uint_digits d'
  | Decimal.D2 d' => 50 :: uint_digits d'
  | Decimal.D3 d' => 51 :: uint_digits d'
  | Decimal.D4 d' => 52 :: uint_digits d'
  | Decimal.D5 d' => 53 :: uint_digits d'
  | Decimal.D6 d' => 54 :: uint_digits d'
  | Decimal.D7 d' => 55 :: uint_digits d'
  | Decimal.D8 d' => 56 :: uint_digits d'
  | Decimal.D9 d' => 57 :: uint_digits d'
  end.

Definition py_str (n : N) : str := uint_digits (N.to_uint n).

(** ** Values produced by [json.loads] *)

Inductive pyval :=
| PNone
| PBool (b : bool)
| PInt (z : Z)
| PFloat (f : float)
| PStr (s : str)
| PList (l : list pyval)
| PDict (d : list (str * pyval)).

(** [bool(v)] *)
Definition truthy (v : pyval) : bool :=
  match v with
  | PNone => false
  | PBool b => b
  | PInt z => negb (z =? 0)%Z
  | PFloat f => negb (PrimFloat.eqb f 0%float)
  | PStr s => truthy_str s
  | PList l => match l with [] => false | _ => true end
  | PDict d => match d with [] => false | _ => true end
  end.

(** Lookup in a dict kept in insertion order. *)
Fixpoint assoc (k : str) (d : list (str * pyval)) : option pyval :=
  match d with
  | [] => None
  | (k', v) :: d' => if decide (k = k') then Some v else assoc k d'
  end.

(** [obj.get(k)]: only a dict has [get]; a missing key gives [None]. *)
Definition py_get (obj : pyval) (k : str) : option pyval :=
  match obj with
  | PDict d => Some (default PNone (assoc k d))
  | _ => None
  end.

(** [v.strip()]: only a string has [strip]. *)
Definition py_strip (v : pyval) : option str :=
  match v with
  | PStr s => Some (strip s)
  | _ => None
  end.

(** [for obj in v]: lists give their items, dicts their keys, strings
    their characters; nothing else is iterable. *)
Definition py_iter (v : pyval) : option (list pyval) :=
  match v with
  | PList l => Some l
  | PDict d => Some (map (fun kv => PStr (fst kv)) d)
  | PStr s => Some (map (fun c => PStr [c]) s)
  | _ => None
  end.

(** ** Types *)

(** [class VocabObject]: [__init__] strips both arguments. *)
Record VocabObject := mkVocabObject {
  original : str;
  translation : str
}.

Definition VocabObject_init (original translation : pyval)
  : option VocabObject :=
  o ← py_strip original;
  t ← py_strip translation;
  Some (mkVocabObject o t).

(** [(self.original, self.translation)], the tuple behind [__hash__] and
    [__eq__]. *)
Definition vocab_key (v : VocabObject) : str * str :=
  (original v, translation v).

(** ** The four kinds of entries *)

Record note_entry := mkNote {
  n_id : str;
  n_content : str;
  n_noteType : option str;
  n_showBeforeExercice : option bool
}.

Record translation_entry := mkTranslation {
  t_id : str;
  t_content : str;
  t_notes : option (list str)
}.

Record vocab_entry := mkVocab {
  v_id : str;
  v_language : str;
  v_content : str;
  v_consideredCharacter : option bool;
  v_consideredSentence : option bool;
  v_consideredWord : option bool;
  v_priority : option Z;
  v_notes : option (list str);
  v_translations : option (list str)
}.

Record resource_entry := mkResource {
  r_id : str;
  r_isImmersionContent : bool;
  r_language : str;
  r_title : str;
  r_content : option str;
  r_priority : option Z;
  r_link : option str;
  r_vocab : option (list str);
  r_notes : option (list str);
  r_factCards : option (list str)
}.

(** ** The world outside the process *)

(** What [ytt_api.fetch] returns: the language of the transcript it found
    and the [text] of each entry. *)
Record FetchedTranscript := mkTranscript {
  language_code : str;
  entries : list str
}.

(** What [client.chat.completions.create] does: it raises, or it returns a
    response whose [choices[0].message.content] is a string or [None]. *)
Inductive completion :=
| CallRaises
| Message (content : option str).

(** One of the four files written at the end. *)
Inductive jsonl :=
| ResourceRows (rows : list resource_entry)
| VocabRows (rows : list vocab_entry)
| TranslationRows (rows : list translation_entry)
| NoteRows (rows : list note_entry).

Inductive event :=
| EvFetch (video_id : str) (languages : list str)
| EvCompletion (prompt : str)
| EvMkdir (dir : str)
| EvWrite (path : str) (rows : jsonl).

(** Library and external calls, each with [None] or [false] for "raises". *)
Record World := mkWorld {
  (** [Path(p).stem] *)
  path_stem : str -> str;
  (** [json.loads] *)
  json_loads : str -> option pyval;
  (** [open(p)] and reading its lines *)
  read_lines : str -> option (list str);
  (** [os.getenv] *)
  getenv : str -> option str;
  (** [YouTubeTranscriptApi().fetch(video_id, languages=...)] *)
  fetch : str -> list str -> option FetchedTranscript;
  (** [client.chat.completions.create], by the user prompt *)
  chat_completions_create : str -> completion;
  (** [output_dir.mkdir(parents=True, exist_ok=True)] *)
  mkdir : str -> bool;
  (** opening a file of the output directory and writing all its rows *)
  write_file : str -> bool
}.

(** ** Data storage and id counters *)

Record State := mkState {
  resource_data : list resource_entry;
  vocab_data : list vocab_entry;
  translation_data : list translation_entry;
  note_data : list note_entry;
  resource_id : N;
  vocab_id : N;
  translation_id : N;
  note_id : N;
  trace : list event
}.

Definition initial_state : State :=
  mkState [] [] [] [] 0 0 0 0 [].

Definition log (e : event) (st : State) : State :=
  mkState (resource_data st) (vocab_data st) (translation_data st)
    (note_data st) (resource_id st) (vocab_id st) (translation_id st)
    (note_id st) (trace st ++ [e]).

Definition get_next_resource_id (st : State) : str * State :=
  let n := resource_id st + 1 in
  (py_str n,
   mkState (resource_data st) (vocab_data st) (translation_data st)
     (note_data st) n (vocab_id st) (translation_id st) (note_id st)
     (trace st)).

Definition get_next_vocab_id (st : State) : str * State :=
  let n := vocab_id st + 1 in
  (py_str n,
   mkState (resource_data st) (vocab_data st) (translation_data st)
     (note_data st) (resource_id st) n (translation_id st) (note_id st)
     (trace st)).

Definition get_next_translation_id (st : State) : str * State :=
  let n := translation_id st + 1 in
  (py_str n,
   mkState (resource_data st) (vocab_data st) (translation_data st)
     (note_data st) (resource_id st) (vocab_id st) n (note_id st)
     (trace st)).

Definition get_next_note_id (st : State) : str * State :=
  let n := note_id st + 1 in
  (py_str n,
   mkState (resource_data st) (vocab_data st) (translation_data st)
     (note_data st) (resource_id st) (vocab_id st) (translation_id st) n
     (trace st)).

Definition append_note (e : note_entry) (st : State) : State :=
  mkState (resource_data st) (vocab_data st) (translation_data st)
    (note_data st ++ [e]) (resource_id st) (vocab_id st) (translation_id st)
    (note_id st) (trace st).

Definition append_translation (e : translation_entry) (st : State) : State :=
  mkState (resource_data st) (vocab_data st) (translation_data st ++ [e])
    (note_data st) (resource_id st) (vocab_id st) (translation_id st)
    (note_id st) (trace st).

Definition append_vocab (e : vocab_entry) (st : State) : State :=
  mkState (resource_data st) (vocab_data st ++ [e]) (translation_data st)
    (note_data st) (resource_id st) (vocab_id st) (translation_id st)
    (note_id st) (trace st).

Definition append_resource (e : resource_entry) (st : State) : State :=
  mkState (resource_data st ++ [e]) (vocab_data st) (translation_data st)
    (note_data st) (resource_id st) (vocab_id st) (translation_id st)
    (note_id st) (trace st).

(** [x if x else None] for an optional list: an empty list is falsy. *)
Definition truthy_list {A} (l : option (list A)) : option (list A) :=
  match l with
  | Some (_ :: _) => l
  | _ => None
  end.

(** The same for an optional string. *)
Definition truthy_opt_str (s : option str) : option str :=
  match s with
  | Some (_ :: _) => s
  | _ => None
  end.

Definition create_note (content : str) (note_type : option str)
    (show_before_exercise : option bool) (st : State) : option str * State :=
  if negb (truthy_str content) then (None, st)
  else
    let '(id, st1) := get_next_note_id st in
    let note_entry :=
      mkNote id content (truthy_opt_str note_type) show_before_exercise in
    (Some (n_id note_entry), append_note note_entry st1).

Definition create_translation (content : str) (notes : option (list str))
    (st : State) : option str * State :=
  if negb (truthy_str content) then (None, st)
  else
    let '(id, st1) := get_next_translation_id st in
    let translation_entry := mkTranslation id content (truthy_list notes) in
    (Some (t_id translation_entry), append_translation translation_entry st1).

Definition create_vocab (language content : str)
    (considered_character considered_sentence considered_word : option bool)
    (notes translations : option (list str)) (priority : option Z)
    (st : State) : str * State :=
  let '(id, st1) := get_next_vocab_id st in
  let vocab_entry :=
    mkVocab id language content considered_character considered_sentence
      considered_word priority (truthy_list notes) (truthy_list translations) in
  (v_id vocab_entry, append_vocab vocab_entry st1).

Definition create_resource (language title : str) (content : option str)
    (priority : option Z) (link : option str)
    (vocab notes fact_cards : option (list str))
    (st : State) : str * State :=
  let '(id, st1) := get_next_resource_id st in
  let resource_entry :=
    mkResource id true language title (truthy_opt_str content) priority
      (truthy_opt_str link) (truthy_list vocab) (truthy_list notes)
      (truthy_list fact_cards) in
  (r_id resource_entry, append_resource resource_entry st1).

(** ** Configuration *)

(** [VIDEO_LIST_TXT] and [RETURN_AFTER_TWO_VIDEOS] as the source sets them;
    the functions below take them as arguments. *)
Definition VIDEO_LIST_TXT : str := lit "data_in/apc_ar.txt".
Definition RETURN_AFTER_TWO_VIDEOS : bool := true.

Definition underscore : N := 95.

(** [TARGET_LANG_CODE, VIDEO_SUBTITLE_LANGUAGE = filename.split("_")]:
    unpacking anything but two pieces raises [ValueError]. *)
Definition parse_lang_codes (filename : str) : option (str * str) :=
  match split underscore filename with
  | [target; subtitle] => Some (target, subtitle)
  | _ => None
  end.

(** ** Vocabulary extraction *)

Definition prompt_head : str :=
  lit "You are an expert in language teaching." ++ nl ++ nl ++
  lit "Extract language learning vocabulary from the following subtitle snippet in ".

Definition prompt_guidelines : str :=
  lit " language." ++ nl ++ nl ++
  lit "Guidelines:" ++ nl ++
  lit "- Extract meaningful words and phrases that would be useful for language learners" ++ nl ++
  lit "- Ignore music indicators like [" ++ [1605; 1608; 1587; 1610; 1602; 1609] ++
  lit "] or [music]" ++ nl ++
  lit "- Extract even single words if they are meaningful vocabulary" ++ nl ++
  lit "- Ignore proper nouns (names, places, brands), exclamations (oh, wow), and non-translatable words" ++ nl ++
  lit "- For each extracted word/phrase, provide an English translation suitable for learning" ++ nl ++
  lit "- Retain correct capitalization and spelling" ++ nl ++
  lit "- Focus on common, everyday vocabulary that learners would encounter" ++ nl ++
  lit "- Even if snippets are short, extract any meaningful vocabulary" ++ nl ++
  lit "- Avoid!! comma-separated synonyms. Simply give the most fitting translation!" ++ nl ++
  lit "- Only add the pure words/expressions themselves. Do not add notes or extra infos." ++ nl ++ nl ++
  lit "Return your answer as a JSON array with objects containing 'original' and 'translation' fields." ++ nl ++ nl ++
  lit "Subtitle snippet to analyze:" ++ nl.

Definition prompt (line source_language_code : str) : str :=
  prompt_head ++ source_language_code ++ prompt_guidelines ++ line ++ nl.

(** [obj.get('original') or obj.get('word')] *)
Definition original_or_word (obj : pyval) : option pyval :=
  o ← py_get obj (lit "original");
  if truthy o then Some o else py_get obj (lit "word").

(** The list comprehension shared by the three branches:
    [[VocabObject(obj.get('original') or obj.get('word'),
                  obj.get('translation'))
      for obj in objs if obj.get('original') or obj.get('word')]]. *)
Fixpoint vocab_objects (objs : list pyval) : option (list VocabObject) :=
  match objs with
  | [] => Some []
  | obj :: objs' =>
      c ← original_or_word obj;
      if truthy c then
        o ← original_or_word obj;
        t ← py_get obj (lit "translation");
        v ← VocabObject_init o t;
        vs ← vocab_objects objs';
        Some (v :: vs)
      else vocab_objects objs'
  end.

(** [parsed[key]] followed by the comprehension over it. *)
Definition vocab_objects_at (key : str) (d : list (str * pyval))
  : option (list VocabObject) :=
  seq ← assoc key d;
  objs ← py_iter seq;
  vocab_objects objs.

(** The body of the [try] after [json.loads]. [key in parsed] is a key test
    on a dict and a substring test on a string (subscripting which with a
    string then raises); on [None], a bool or a number it raises. *)
Definition interpret (parsed : pyval) : option (list VocabObject) :=
  match parsed with
  | PList l => vocab_objects l
  | PDict d =>
      if decide (lit "vocabulary" ∈ d.*1) then
        vocab_objects_at (lit "vocabulary") d
      else if decide (lit "words" ∈ d.*1) then
        vocab_objects_at (lit "words") d
      else Some []
  | PStr s =>
      if str_contains (lit "vocabulary") s then None
      else if str_contains (lit "words") s then None
      else Some []
  | PNone | PBool _ | PInt _ | PFloat _ => None
  end.

Section Program.

Variable w : World.

(** [response.choices[0].message.content] and [json.loads(content)]. *)
Definition parsed_response (c : completion) : option pyval :=
  match c with
  | CallRaises => None
  | Message content => content ≫= json_loads w
  end.

(** [except Exception: ... return []] turns every failure into no vocab. *)
Definition extract_vocab_from_line (line source_language_code : str)
    (st : State) : list VocabObject * State :=
  let prompt := prompt line source_language_code in
  let st1 := log (EvCompletion prompt) st in
  (default [] (parsed_response (chat_completions_create w prompt)
               ≫= interpret),
   st1).

(** ** Subtitles *)

(** [[entry.text.strip() for entry in transcript if entry.text.strip()]] *)
Definition subtitle_lines (transcript : FetchedTranscript) : list str :=
  map strip (filter (fun text => truthy_str (strip text) = true)
               (entries transcript)).

(** The [except] clause re-raises. *)
Definition download_subtitles (video_id lang_code : str) (st : State)
  : option (list str * str) * State :=
  let st1 := log (EvFetch video_id [lang_code]) st in
  match fetch w video_id [lang_code] with
  | Some transcript => (Some (subtitle_lines transcript, lang_code), st1)
  | None => (None, st1)
  end.

(** ** Record building *)

Definition convert_to_vocab_entry (vocab_obj : VocabObject)
    (target_lang_code : str) (st : State) : str * State :=
  let '(translation_id, st1) :=
    create_translation (translation vocab_obj) None st in
  create_vocab target_lang_code (original vocab_obj)
    None None (Some true) None
    (match truthy_opt_str translation_id with
     | Some id => Some [id]
     | None => None
     end)
    (Some 1%Z) st1.

(** The loop over the subtitle lines that fills [all_vocab]. *)
Fixpoint extract_all (lines : list str) (source_language_code : str)
    (st : State) : list VocabObject * State :=
  match lines with
  | [] => ([], st)
  | line :: lines' =>
      let '(vocab_objs, st1) :=
        extract_vocab_from_line line source_language_code st in
      let '(more, st2) := extract_all lines' source_language_code st1 in
      (vocab_objs ++ more, st2)
  end.

(** [unique_vocab]: a dict from key to the first [VocabObject] with that
    key, in insertion order. *)
Definition unique_vocab_add (unique_vocab : list (str * str * VocabObject))
    (vocab_obj : VocabObject) : list (str * str * VocabObject) :=
  let key := (original vocab_obj, translation vocab_obj) in
  if decide (key ∈ unique_vocab.*1) then unique_vocab
  else unique_vocab ++ [(key, vocab_obj)].

Definition unique_vocab_of (all_vocab : list VocabObject)
  : list (str * str * VocabObject) :=
  foldl unique_vocab_add [] all_vocab.

(** [[convert_to_vocab_entry(vocab_obj, target_lang_code)
      for vocab_obj in unique_vocab.values()]] *)
Fixpoint convert_all (values : list VocabObject) (target_lang_code : str)
    (st : State) : list str * State :=
  match values with
  | [] => ([], st)
  | vocab_obj :: values' =>
      let '(id, st1) := convert_to_vocab_entry vocab_obj target_lang_code st in
      let '(ids, st2) := convert_all values' target_lang_code st1 in
      (id :: ids, st2)
  end.

Definition note_text (video_id subtitle_lang_code : str) : str :=
  lit "YouTube Video ID: " ++ video_id ++ nl ++
  lit "Subtitle language: " ++ subtitle_lang_code.

Definition resource_title (video_id : str) : str :=
  lit "YouTube Video - " ++ video_id.

Definition resource_content (video_id : str) : str :=
  lit "Watch this video: https://www.youtube.com/watch?v=" ++ video_id.

Definition process_video (video_id target_lang_code subtitle_lang_code : str)
    (st : State) : option str * State :=
  match download_subtitles video_id subtitle_lang_code st with
  | (None, st1) => (None, st1)
  | (Some (lines, subtitle_lang_code_actual), st1) =>
      let '(all_vocab, st2) :=
        extract_all lines subtitle_lang_code_actual st1 in
      let unique_vocab := unique_vocab_of all_vocab in
      let '(needed_vocab_ids, st3) :=
        convert_all unique_vocab.*2 target_lang_code st2 in
      let '(note_id, st4) :=
        create_note (note_text video_id subtitle_lang_code_actual)
          None None st3 in
      let '(resource_id, st5) :=
        create_resource target_lang_code (resource_title video_id)
          (Some (resource_content video_id)) (Some 1%Z) None
          (truthy_list (Some needed_vocab_ids))
          (match truthy_opt_str note_id with
           | Some id => Some [id]
           | None => None
           end)
          None st4 in
      (Some resource_id, st5)
  end.

(** ** Writing the four files *)

Definition output_dir (target_lang_code subtitle_lang_code : str) : str :=
  lit "sets/" ++ target_lang_code ++ lit "/youtube-" ++ target_lang_code ++
  lit "-" ++ subtitle_lang_code.

(** [with open(output_dir / name, "w") as f: ...]; [None] when it raises. *)
Definition write_jsonl (dir : str) (name : string) (rows : jsonl)
    (st : State) : option unit * State :=
  let path := dir ++ lit "/" ++ lit name in
  if write_file w path then (Some (), log (EvWrite path rows) st)
  else (None, st).

Definition save_jsonl_files (target_lang_code subtitle_lang_code : str)
    (st : State) : option unit * State :=
  let output_dir := output_dir target_lang_code subtitle_lang_code in
  if negb (mkdir w output_dir) then (None, st)
  else
    let st0 := log (EvMkdir output_dir) st in
    match write_jsonl output_dir "resources.jsonl"
            (ResourceRows (resource_data st0)) st0 with
    | (None, st1) => (None, st1)
    | (Some _, st1) =>
    match write_jsonl output_dir "vocab.jsonl"
            (VocabRows (vocab_data st1)) st1 with
    | (None, st2) => (None, st2)
    | (Some _, st2) =>
    match write_jsonl output_dir "translations.jsonl"
            (TranslationRows (translation_data st2)) st2 with
    | (None, st3) => (None, st3)
    | (Some _, st3) =>
        write_jsonl output_dir "notes.jsonl" (NoteRows (note_data st3)) st3
    end end end.

(** ** Main *)

(** [api_key = os.getenv('OPENAI_API_KEY')]; a missing or empty key raises. *)
Definition get_openai_client : option str :=
  truthy_opt_str (getenv w (lit "OPENAI_API_KEY")).

(** [for idx, video_id in enumerate(video_ids)], from index [idx] on.
    [debug] is [RETURN_AFTER_TWO_VIDEOS]. A video that raises takes the
    [continue], which also passes over the debug test. *)
Fixpoint video_loop (debug : bool) (target sub : str) (idx : nat)
    (video_ids : list str) (st : State) : State :=
  match video_ids with
  | [] => st
  | video_id :: video_ids' =>
      match process_video video_id target sub st with
      | (None, st1) => video_loop debug target sub (S idx) video_ids' st1
      | (Some _, st1) =>
          if debug && (1 <=? idx)%nat then st1
          else video_loop debug target sub (S idx) video_ids' st1
      end
  end.

(** [[line.strip() for line in f if line.strip()]] *)
Definition video_ids_of (lines : list str) : list str :=
  map strip (filter (fun line => truthy_str (strip line) = true) lines).

(** [main]: the exit status and the globals when it returns. *)
Definition main (video_list_txt : str) (debug : bool) (target sub : str)
    (st : State) : Z * State :=
  match read_lines w video_list_txt with
  | None => (1%Z, st)
  | Some lines =>
      let video_ids := video_ids_of lines in
      match get_openai_client with
      | None => (1%Z, st)
      | Some client =>
          let st1 := video_loop debug target sub 0 video_ids st in
          match save_jsonl_files target sub st1 with
          | (None, st2) => (1%Z, st2)
          | (Some _, st2) => (0%Z, st2)
          end
      end
  end.

(** The module from top to bottom: the language codes are parsed when the
    module is loaded, with [sys.exit(1)] on failure, and [exit(main())]
    comes last. *)
Definition script (video_list_txt : str) (debug : bool) : Z * State :=
  match parse_lang_codes (path_stem w video_list_txt) with
  | None => (1%Z, initial_state)
  | Some (target, sub) => main video_list_txt debug target sub initial_state
  end.

End Program.

(** ** Invariants of the globals *)

(** The ids [str(1)], ..., [str(n)]. *)
Definition first_ids (n : nat) : list str :=
  (fun i => py_str (N.of_nat i)) <$> seq 1 n.

(** In each kind the ids are [str(1)], [str(2)], ... in the order of the
    list, and the counter is the number of entries. *)
Record ids_dense (st : State) : Prop := {
  dense_resource :
    r_id <$> resource_data st = first_ids (length (resource_data st));
  dense_vocab : v_id <$> vocab_data st = first_ids (length (vocab_data st));
  dense_translation :
    t_id <$> translation_data st = first_ids (length (translation_data st));
  dense_note : n_id <$> note_data st = first_ids (length (note_data st));
  count_resource : resource_id st = N.of_nat (length (resource_data st));
  count_vocab : vocab_id st = N.of_nat (length (vocab_data st));
  count_translation :
    translation_id st = N.of_nat (length (translation_data st));
  count_note : note_id st = N.of_nat (length (note_data st))
}.

(** Every id in a reference list is the id of an entry of the list it
    points into. *)
Record refs_exist (st : State) : Prop := {
  refs_vocab : ∀ r ids id,
    r ∈ resource_data st → r_vocab r = Some ids → id ∈ ids →
    id ∈ v_id <$> vocab_data st;
  refs_translation : ∀ v ids id,
    v ∈ vocab_data st → v_translations v = Some ids → id ∈ ids →
    id ∈ t_id <$> translation_data st
}.

(** The part of the state that is not the trace. *)
Definition same_store (st st' : State) : Prop :=
  resource_data st' = resource_data st ∧ vocab_data st' = vocab_data st ∧
  translation_data st' = translation_data st ∧ note_data st' = note_data st ∧
  resource_id st' = resource_id st ∧ vocab_id st' = vocab_id st ∧
  translation_id st' = translation_id st ∧ note_id st' = note_id st.

(** The distinct pairs of a list, each at the place of its first
    occurrence. *)
Fixpoint first_occurrences (l : list (str * str)) : list (str * str) :=
  match l with
  | [] => []
  | x :: l' => x :: filter (fun y => y ≠ x) (first_occurrences l')
  end.

(** ** The extractor in the words of the spec *)

(** The value under 'original' when it is truthy, else the value under
    'word'; a missing key counts as [None]. *)
Definition chosen_original (d : list (str * pyval)) : pyval :=
  let o := default PNone (assoc (lit "original") d) in
  if truthy o then o else default PNone (assoc (lit "word") d).

(** Following the spec's words for the extractor: an object is accepted
    when it has a truthy 'original' or, failing that, a truthy 'word', and
    it gives the pair of that text and of its 'translation'. *)
Definition accepted_pair (obj : pyval) : option VocabObject :=
  match obj with
  | PDict d =>
      match chosen_original d, default PNone (assoc (lit "translation") d) with
      | PStr (c :: o), PStr t => Some (mkVocabObject (strip (c :: o)) (strip t))
      | _, _ => None
      end
  | _ => None
  end.

(** An object whose chosen original, when truthy, is a string that comes
    with a string under 'translation'. *)
Definition string_fields (obj : pyval) : bool :=
  match obj with
  | PDict d =>
      negb (truthy (chosen_original d)) ||
      match chosen_original d, default PNone (assoc (lit "translation") d) with
      | PStr _, PStr _ => true
      | _, _ => false
      end
  | _ => false
  end.

(** ** Reading the trace *)

(** The videos whose transcript was asked for, in order. *)
Definition fetched (tr : list event) : list str :=
  omap (fun e => match e with EvFetch video_id _ => Some video_id | _ => None end) tr.

(** The prompts sent to the completion service, in order. *)
Definition prompts (tr : list event) : list str :=
  omap (fun e => match e with EvCompletion p => Some p | _ => None end) tr.

(** ** Worlds to run the script in *)

Definition quoted (s : str) : str := [34] ++ s ++ [34].

(** The text [[{"original": "hola", "translation": "hello"}]]. *)
Definition hola_json : str :=
  lit "[{" ++ quoted (lit "original") ++ lit ": " ++ quoted (lit "hola") ++
  lit ", " ++ quoted (lit "translation") ++ lit ": " ++
  quoted (lit "hello") ++ lit "}]".

Definition complete_object : pyval :=
  PDict [(lit "original", PStr (lit "hola"));
         (lit "translation", PStr (lit "hello"))].

Definition hola_parsed : pyval := PList [complete_object].

(** A world in which the list file has the given stem and lines, every
    credential and file operation succeeds, the transcripts are given by
    [transcripts], and every completion is [reply], which parses to
    [parsed]. *)
Definition demo_world (stem : str) (lines : list str)
    (transcripts : str -> option FetchedTranscript)
    (reply : completion) (parsed : option pyval) : World :=
  mkWorld (fun _ => stem) (fun _ => parsed) (fun _ => Some lines)
    (fun _ => Some (lit "sk-test")) (fun video_id _ => transcripts video_id)
    (fun _ => reply) (fun _ => true) (fun _ => true).

(** Two subtitle lines, the second with blanks around it. *)
Definition two_lines (lang : str) : FetchedTranscript :=
  mkTranscript lang [lit "hola amigo"; lit "  hola  "; lit "   "].

(** [abc123] has a transcript, [xyz789] has none. *)
Definition es_en_transcripts (video_id : str) : option FetchedTranscript :=
  if decide (video_id = lit "abc123") then Some (two_lines (lit "en"))
  else None.

Definition es_en_world : World :=
  demo_world (lit "es_en") [lit "abc123"; lit "xyz789"] es_en_transcripts
    (Message (Some hola_json)) (Some hola_parsed).








(** The text [[{"original": "gato", "translation": " "}]], whose
    translation is blank. *)
Definition blank_translation_json : str :=
  lit "[{" ++ quoted (lit "original") ++ lit ": " ++ quoted (lit "gato") ++
  lit ", " ++ quoted (lit "translation") ++ lit ": " ++ quoted (lit " ") ++
  lit "}]".

Definition blank_translation : pyval :=
  PList [PDict [(lit "original", PStr (lit "gato"));
                (lit "translation", PStr (lit " "))]].

Definition blank_translation_world : World :=
  demo_world (lit "es_en") [lit "abc123"] es_en_transcripts
    (Message (Some blank_translation_json)) (Some blank_translation).


(** Three videos, the second of which has no transcript. *)
Definition second_fails (video_id : str) : option FetchedTranscript :=
  if decide (video_id = lit "vid2") then None else Some (two_lines (lit "ar")).

Definition three_videos_world : World :=
  demo_world (lit "apc_ar") [lit "vid1"; lit "vid2"; lit "vid3"] second_fails
    (Message (Some hola_json)) (Some hola_parsed).

(** Three videos that all have a transcript. *)
Definition three_good_videos_world : World :=
  demo_world (lit "apc_ar") [lit "vid1"; lit "vid2"; lit "vid3"]
    (fun _ => Some (two_lines (lit "ar")))
    (Message (Some hola_json)) (Some hola_parsed).

(** A list file whose name has two underscores. *)
Definition two_underscores_world : World :=
  demo_world (lit "es_en_us") [lit "abc123"] es_en_transcripts
    (Message (Some hola_json)) (Some hola_parsed).

(** ** Reading strings and the trace further *)

(** No whitespace at either end. *)
Definition trimmed (s : str) : Prop :=
  (∀ c, head s = Some c → is_space c = false) ∧
  (∀ c, last s = Some c → is_space c = false).

(** The files written, in order, each with its rows. *)
Definition written (tr : list event) : list (str * jsonl) :=
  omap (fun e => match e with
                 | EvWrite path rows => Some (path, rows)
                 | _ => None
                 end) tr.

(** The directories made, in order. *)
Definition made_dirs (tr : list event) : list str :=
  omap (fun e => match e with EvMkdir dir => Some dir | _ => None end) tr.

(** The four files of a complete output, in the order of
    [save_jsonl_files], with the rows of [st]. *)
Definition output_files (target sub : str) (st : State)
  : list (str * jsonl) :=
  let dir := output_dir target sub in
  [(dir ++ lit "/" ++ lit "resources.jsonl", ResourceRows (resource_data st));
   (dir ++ lit "/" ++ lit "vocab.jsonl", VocabRows (vocab_data st));
   (dir ++ lit "/" ++ lit "translations.jsonl",
    TranslationRows (translation_data st));
   (dir ++ lit "/" ++ lit "notes.jsonl", NoteRows (note_data st))].

(** The prompts that one video gives rise to: one per subtitle line when it
    has a transcript, none otherwise. *)
Definition video_prompts (w : World) (sub video_id : str) : list str :=
  match fetch w video_id [sub] with
  | Some transcript =>
      (fun line => prompt line sub) <$> subtitle_lines transcript
  | None => []
  end.

(** What one video adds to the trace: the request for its transcript and
    then its prompts. *)
Definition video_events (w : World) (sub video_id : str) : list event :=
  EvFetch video_id [sub] :: (EvCompletion <$> video_prompts w sub video_id).

(** The event of writing one file. *)
Definition write_event (file : str * jsonl) : event :=
  EvWrite file.1 file.2.


(** A world without the API key. *)
Definition no_key_world : World :=
  mkWorld (fun _ => lit "es_en") (fun _ => Some hola_parsed)
    (fun _ => Some [lit "abc123"]) (fun _ => None)
    (fun video_id _ => es_en_transcripts video_id)
    (fun _ => Message (Some hola_json)) (fun _ => true) (fun _ => true).

(** A world in which the third file cannot be written. *)
Definition translations_fail_world : World :=
  mkWorld (fun _ => lit "es_en") (fun _ => Some hola_parsed)
    (fun _ => Some [lit "abc123"]) (fun _ => Some (lit "sk-test"))
    (fun video_id _ => es_en_transcripts video_id)
    (fun _ => Message (Some hola_json)) (fun _ => true)
    (fun path =>
       negb (bool_decide
               (path = lit "sets/es/youtube-es-en/translations.jsonl"))).

(** * Proofs *)

Arguments py_str : simpl never.
Arguments lit : simpl never.
Arguments prompt : simpl never.
Arguments note_text : simpl never.
Arguments resource_title : simpl never.
Arguments resource_content : simpl never.
Arguments output_dir : simpl never.
Arguments extract_vocab_from_line : simpl never.
Arguments convert_to_vocab_entry : simpl never.
Arguments download_subtitles : simpl never.
Arguments process_video : simpl never.
Arguments save_jsonl_files : simpl never.

Ltac unfold_store :=
  unfold create_note, create_translation, create_vocab, create_resource,
    get_next_note_id, get_next_translation_id, get_next_vocab_id,
    get_next_resource_id, append_note, append_translation, append_vocab,
    append_resource, log in *.

(** ** Decimal ids *)

Lemma first_ids_S n :
  first_ids (S n) = first_ids n ++ [py_str (N.of_nat (S n))].
Proof. unfold first_ids. by rewrite seq_S, fmap_app. Qed.

Lemma length_first_ids n : length (first_ids n) = n.
Proof. unfold first_ids. by rewrite length_fmap, length_seq. Qed.

Lemma uint_digits_inj d d' : uint_digits d = uint_digits d' → d = d'.
Proof.
  revert d'. induction d; intros d' H; destruct d'; simpl in H;
    try discriminate; try reflexivity;
    injection H as H; f_equal; by apply IHd.
Qed.

Lemma py_str_inj n n' : py_str n = py_str n' → n = n'.
Proof.
  unfold py_str. intros H%uint_digits_inj. by apply Unsigned.to_uint_inj.
Qed.

Lemma NoDup_first_ids n : NoDup (first_ids n).
Proof.
  unfold first_ids. apply NoDup_fmap_2_strong; [|apply NoDup_seq].
  intros i j _ _ H%py_str_inj. lia.
Qed.

Lemma py_str_nonempty n : py_str n ≠ [].
Proof.
  unfold py_str. pose proof (Unsigned.of_to n) as H.
  destruct (N.to_uint n) eqn:E; simpl; try discriminate.
  intros _. pose proof (Unsigned.to_of Decimal.Nil) as H'.
  simpl in H'. rewrite <- E in H'. subst n. simpl in E. discriminate.
Qed.

Lemma append_id_dense {A} (f : A → str) (l : list A) (c : N) (e : A) :
  f <$> l = first_ids (length l) → c = N.of_nat (length l) →
  f e = py_str (c + 1) →
  f <$> (l ++ [e]) = first_ids (length (l ++ [e])) ∧
  c + 1 = N.of_nat (length (l ++ [e])).
Proof.
  intros Hl -> He. rewrite fmap_app, length_app, Nat.add_1_r, first_ids_S.
  simpl. rewrite Hl, He. split; [|lia]. do 3 f_equal. lia.
Qed.

(** ** Each operation keeps the ids dense *)

Lemma ids_dense_initial : ids_dense initial_state.
Proof. by constructor. Qed.

Lemma ids_dense_same_store st st' :
  same_store st st' → ids_dense st → ids_dense st'.
Proof.
  intros (H1 & H2 & H3 & H4 & H5 & H6 & H7 & H8) [].
  constructor; congruence.
Qed.

Lemma same_store_refl st : same_store st st.
Proof. by repeat split. Qed.

Lemma same_store_trans st1 st2 st3 :
  same_store st1 st2 → same_store st2 st3 → same_store st1 st3.
Proof. unfold same_store. intuition congruence. Qed.

Lemma same_store_log e st : same_store st (log e st).
Proof. by repeat split. Qed.

Lemma ids_dense_create_note content note_type show st r st' :
  create_note content note_type show st = (r, st') →
  ids_dense st → ids_dense st'.
Proof.
  unfold_store. intros H []. destruct (truthy_str content); simplify_eq/=;
    [|by constructor].
  destruct (append_id_dense n_id (note_data st) (note_id st)
    (mkNote (py_str (note_id st + 1)) content (truthy_opt_str note_type) show))
    as [? ?]; [done..|by constructor].
Qed.

Lemma ids_dense_create_translation content notes st r st' :
  create_translation content notes st = (r, st') →
  ids_dense st → ids_dense st'.
Proof.
  unfold_store. intros H []. destruct (truthy_str content); simplify_eq/=;
    [|by constructor].
  destruct (append_id_dense t_id (translation_data st) (translation_id st)
    (mkTranslation (py_str (translation_id st + 1)) content
       (truthy_list notes)))
    as [? ?]; [done..|by constructor].
Qed.

Lemma ids_dense_create_vocab language content cc cs cw notes translations
    priority st r st' :
  create_vocab language content cc cs cw notes translations priority st
    = (r, st') →
  ids_dense st → ids_dense st'.
Proof.
  unfold_store. intros H []. simplify_eq/=.
  destruct (append_id_dense v_id (vocab_data st) (vocab_id st)
    (mkVocab (py_str (vocab_id st + 1)) language content cc cs cw priority
       (truthy_list notes) (truthy_list translations)))
    as [? ?]; [done..|by constructor].
Qed.

Lemma ids_dense_create_resource language title content priority link vocab
    notes fact_cards st r st' :
  create_resource language title content priority link vocab notes fact_cards
    st = (r, st') →
  ids_dense st → ids_dense st'.
Proof.
  unfold_store. intros H []. simplify_eq/=.
  destruct (append_id_dense r_id (resource_data st) (resource_id st)
    (mkResource (py_str (resource_id st + 1)) true language title
       (truthy_opt_str content) priority (truthy_opt_str link)
       (truthy_list vocab) (truthy_list notes) (truthy_list fact_cards)))
    as [? ?]; [done..|by constructor].
Qed.

Section Correctness.

Context (w : World).

(** ** Unfolding equations *)

Lemma extract_all_cons line lines lang st :
  extract_all w (line :: lines) lang st =
  let '(vocab_objs, st1) := extract_vocab_from_line w line lang st in
  let '(more, st2) := extract_all w lines lang st1 in
  (vocab_objs ++ more, st2).
Proof. reflexivity. Qed.

Lemma convert_all_cons v values target st :
  convert_all (v :: values) target st =
  let '(id, st1) := convert_to_vocab_entry v target st in
  let '(ids, st2) := convert_all values target st1 in
  (id :: ids, st2).
Proof. reflexivity. Qed.

Lemma video_loop_cons debug target sub idx video_id video_ids st :
  video_loop w debug target sub idx (video_id :: video_ids) st =
  match process_video w video_id target sub st with
  | (None, st1) => video_loop w debug target sub (S idx) video_ids st1
  | (Some _, st1) =>
      if debug && (1 <=? idx)%nat then st1
      else video_loop w debug target sub (S idx) video_ids st1
  end.
Proof. reflexivity. Qed.

(** ** Extraction and download touch only the trace *)

Lemma extract_vocab_from_line_store line lang st :
  same_store st (extract_vocab_from_line w line lang st).2.
Proof. apply same_store_log. Qed.

Lemma extract_vocab_from_line_pure line lang st st0 :
  (extract_vocab_from_line w line lang st).1
  = (extract_vocab_from_line w line lang st0).1.
Proof. reflexivity. Qed.

Lemma extract_all_store lines lang st :
  same_store st (extract_all w lines lang st).2.
Proof.
  revert st. induction lines as [|line lines IH]; intros st.
  - apply same_store_refl.
  - rewrite extract_all_cons.
    destruct (extract_vocab_from_line w line lang st) as [objs st1] eqn:E1.
    specialize (IH st1).
    destruct (extract_all w lines lang st1) as [more st2]. simpl in *.
    eapply same_store_trans; [|exact IH].
    pose proof (extract_vocab_from_line_store line lang st) as H.
    by rewrite E1 in H.
Qed.

Lemma extract_all_pure lines lang st st0 :
  (extract_all w lines lang st).1 = (extract_all w lines lang st0).1.
Proof.
  revert st st0. induction lines as [|line lines IH]; intros st st0;
    [done|].
  rewrite !extract_all_cons.
  destruct (extract_vocab_from_line w line lang st) as [objs st1] eqn:E1.
  destruct (extract_vocab_from_line w line lang st0) as [objs0 st1'] eqn:E2.
  specialize (IH st1 st1').
  destruct (extract_all w lines lang st1), (extract_all w lines lang st1').
  simpl in *. f_equal; [|done].
  pose proof (extract_vocab_from_line_pure line lang st st0) as H.
  by rewrite E1, E2 in H.
Qed.

Lemma download_subtitles_store video_id lang st :
  same_store st (download_subtitles w video_id lang st).2.
Proof.
  unfold download_subtitles. destruct (fetch w video_id [lang]);
    apply same_store_log.
Qed.

Lemma download_subtitles_ok video_id lang st transcript :
  fetch w video_id [lang] = Some transcript →
  download_subtitles w video_id lang st
  = (Some (subtitle_lines transcript, lang), log (EvFetch video_id [lang]) st).
Proof. intros H. unfold download_subtitles. by rewrite H. Qed.

(** ** One vocab entry *)

Lemma truthy_opt_str_py_str n : truthy_opt_str (Some (py_str n)) = Some (py_str n).
Proof.
  pose proof (py_str_nonempty n). by destruct (py_str n).
Qed.

Lemma convert_to_vocab_entry_spec v target st id st' :
  convert_to_vocab_entry v target st = (id, st') →
  ∃ e, vocab_data st' = vocab_data st ++ [e] ∧ id = v_id e ∧
    v_content e = original v ∧ v_language e = target ∧
    vocab_id st' = vocab_id st + 1 ∧
    resource_data st' = resource_data st ∧ note_data st' = note_data st ∧
    resource_id st' = resource_id st ∧ note_id st' = note_id st ∧
    trace st' = trace st ∧
    ((translation v = [] ∧ translation_data st' = translation_data st ∧
      translation_id st' = translation_id st ∧ v_translations e = None) ∨
     (translation v ≠ [] ∧ ∃ t,
        translation_data st' = translation_data st ++ [t] ∧
        translation_id st' = translation_id st + 1 ∧
        t_content t = translation v ∧ v_translations e = Some [t_id t])).
Proof.
  unfold convert_to_vocab_entry. unfold_store.
  destruct (translation v) as [|c s] eqn:Et; simpl; intros H.
  - simplify_eq/=. eexists. repeat split; try reflexivity. by left.
  - pose proof (py_str_nonempty (translation_id st + 1)) as Hne.
    destruct (py_str (translation_id st + 1)) as [|d ds] eqn:Ed; [done|].
    simplify_eq/=. eexists. repeat split; try reflexivity. right. split; [done|].
    eexists. repeat split; reflexivity.
Qed.

Lemma ids_dense_convert_to_vocab_entry v target st id st' :
  convert_to_vocab_entry v target st = (id, st') →
  ids_dense st → ids_dense st'.
Proof.
  unfold convert_to_vocab_entry. intros H Hd.
  destruct (create_translation (translation v) None st) as [tid st1] eqn:E1.
  eapply ids_dense_create_vocab; [exact H|].
  eapply ids_dense_create_translation; [exact E1|done].
Qed.

Lemma refs_exist_convert_to_vocab_entry v target st id st' :
  convert_to_vocab_entry v target st = (id, st') →
  refs_exist st → refs_exist st'.
Proof.
  intros (e & Hv & _ & _ & _ & _ & Hr & _ & _ & _ & _ & Ht)%convert_to_vocab_entry_spec [Hrv Hvt].
  constructor.
  - intros r ids i. rewrite Hr, Hv, fmap_app, elem_of_app. eauto.
  - intros v0 ids i. rewrite Hv, elem_of_app, list_elem_of_singleton.
    intros [Hin| ->] Hids Hi.
    + specialize (Hvt _ _ _ Hin Hids Hi).
      destruct Ht as [(_ & -> & _)|(_ & t & -> & _)]; [done|].
      rewrite fmap_app, elem_of_app. by left.
    + destruct Ht as [(_ & _ & _ & Hn)|(_ & t & -> & _ & _ & Hs)];
        [congruence|].
      rewrite Hs in Hids. simplify_eq. apply list_elem_of_singleton in Hi.
      subst. rewrite fmap_app, elem_of_app. right. simpl.
      by apply list_elem_of_singleton.
Qed.

(** ** All vocab entries of a video *)

Lemma convert_all_spec values target st ids st' :
  convert_all values target st = (ids, st') →
  ∃ vs, vocab_data st' = vocab_data st ++ vs ∧ ids = v_id <$> vs ∧
    v_content <$> vs = original <$> values ∧
    resource_data st' = resource_data st ∧ note_data st' = note_data st ∧
    resource_id st' = resource_id st ∧ note_id st' = note_id st ∧
    trace st' = trace st.
Proof.
  revert st ids st'. induction values as [|v values IH]; intros st ids st' H.
  - simpl in H. simplify_eq. exists []. by rewrite app_nil_r.
  - rewrite convert_all_cons in H.
    destruct (convert_to_vocab_entry v target st) as [id st1] eqn:E1.
    destruct (convert_all values target st1) as [ids' st2] eqn:E2.
    simplify_eq.
    apply convert_to_vocab_entry_spec in E1
      as (e & Hv & -> & Hc & _ & _ & Hr & Hn & Hri & Hni & Htr & _).
    apply IH in E2 as (vs & Hv' & -> & Hc' & Hr' & Hn' & Hri' & Hni' & Htr').
    exists (e :: vs). rewrite Hv', Hv, <- app_assoc, !fmap_cons. simpl.
    repeat split; congruence.
Qed.

Lemma ids_dense_convert_all values target st ids st' :
  convert_all values target st = (ids, st') →
  ids_dense st → ids_dense st'.
Proof.
  revert st ids st'. induction values as [|v values IH]; intros st ids st' H;
    [by simpl in H; simplify_eq|].
  rewrite convert_all_cons in H.
  destruct (convert_to_vocab_entry v target st) as [id st1] eqn:E1.
  destruct (convert_all values target st1) as [ids' st2] eqn:E2.
  simplify_eq. eauto using ids_dense_convert_to_vocab_entry.
Qed.

Lemma refs_exist_convert_all values target st ids st' :
  convert_all values target st = (ids, st') →
  refs_exist st → refs_exist st'.
Proof.
  revert st ids st'. induction values as [|v values IH]; intros st ids st' H;
    [by simpl in H; simplify_eq|].
  rewrite convert_all_cons in H.
  destruct (convert_to_vocab_entry v target st) as [id st1] eqn:E1.
  destruct (convert_all values target st1) as [ids' st2] eqn:E2.
  simplify_eq. eauto using refs_exist_convert_to_vocab_entry.
Qed.

(** ** One video *)

Lemma refs_exist_same_store st st' :
  same_store st st' → refs_exist st → refs_exist st'.
Proof.
  intros (H1 & H2 & H3 & _) [Hrv Hvt].
  constructor; rewrite ?H1, ?H2, ?H3; eauto.
Qed.

Lemma extract_all_trace lines lang st :
  trace (extract_all w lines lang st).2
  = trace st ++ ((fun line => EvCompletion (prompt line lang)) <$> lines).
Proof.
  revert st. induction lines as [|line lines IH]; intros st.
  - simpl. by rewrite app_nil_r.
  - rewrite extract_all_cons, fmap_cons.
    destruct (extract_vocab_from_line w line lang st) as [objs st1] eqn:E1.
    specialize (IH st1).
    destruct (extract_all w lines lang st1) as [more st2]. simpl in *.
    rewrite IH. unfold extract_vocab_from_line in E1. simplify_eq.
    unfold log. simpl. by rewrite <- app_assoc.
Qed.

Lemma process_video_fail video_id target sub st :
  fetch w video_id [sub] = None →
  process_video w video_id target sub st
  = (None, log (EvFetch video_id [sub]) st).
Proof.
  intros H. unfold process_video, download_subtitles. by rewrite H.
Qed.

Lemma process_video_spec video_id target sub st transcript :
  fetch w video_id [sub] = Some transcript →
  let ex := extract_all w (subtitle_lines transcript) sub
              (log (EvFetch video_id [sub]) st) in
  let values := (unique_vocab_of ex.1).*2 in
  ∃ st' vs n r,
    process_video w video_id target sub st = (Some (r_id r), st') ∧
    vocab_data st' = vocab_data st ++ vs ∧
    v_content <$> vs = original <$> values ∧
    note_data st' = note_data st ++ [n] ∧
    n_content n = note_text video_id sub ∧
    resource_data st' = resource_data st ++ [r] ∧
    r_title r = resource_title video_id ∧
    r_vocab r = truthy_list (Some (v_id <$> vs)) ∧
    r_notes r = Some [n_id n] ∧
    trace st' = trace ex.2.
Proof.
  intros Hf ex values. unfold process_video, download_subtitles.
  rewrite Hf. fold ex.
  pose proof (extract_all_store (subtitle_lines transcript) sub
    (log (EvFetch video_id [sub]) st)) as Hs. fold ex in Hs.
  destruct ex as [all_vocab st2] eqn:Eex. simpl in Hs, values.
  fold values.
  destruct (convert_all values target st2) as [ids st3] eqn:E3.
  apply convert_all_spec in E3
    as (vs & Hv & -> & Hc & Hr & Hn & Hri & Hni & Htr).
  destruct Hs as (S1 & S2 & S3 & S4 & S5 & S6 & S7 & S8). simpl in *.
  unfold_store.
  pose proof (py_str_nonempty (note_id st3 + 1)) as Hne.
  destruct (py_str (note_id st3 + 1)) as [|d ds] eqn:Ed; [done|].
  eexists _, vs, (mkNote (d :: ds) (note_text video_id sub) None None),
    (mkResource (py_str (resource_id st3 + 1)) true target
       (resource_title video_id) (Some (resource_content video_id))
       (Some 1%Z) None (truthy_list (Some (v_id <$> vs))) (Some [d :: ds])
       None).
  simpl. split; [reflexivity|]. simpl.
  destruct (v_id <$> vs); simpl; repeat split;
    rewrite ?Hv, ?Hn, ?Hr, ?Htr, ?S1, ?S2, ?S4; done.
Qed.

Lemma ids_dense_process_video video_id target sub st r st' :
  process_video w video_id target sub st = (r, st') →
  ids_dense st → ids_dense st'.
Proof.
  unfold process_video. intros H Hd.
  pose proof (download_subtitles_store video_id sub st) as Hs.
  destruct (download_subtitles w video_id sub st) as [[[lines lang]|] st1];
    simpl in Hs; [|simplify_eq; eauto using ids_dense_same_store].
  pose proof (extract_all_store lines lang st1) as Hs2.
  destruct (extract_all w lines lang st1) as [all_vocab st2]. simpl in Hs2.
  destruct (convert_all _ target st2) as [ids st3] eqn:E3.
  destruct (create_note _ None None st3) as [nid st4] eqn:E4.
  destruct (create_resource _ _ _ _ _ _ _ _ st4) as [rid st5] eqn:E5.
  simplify_eq.
  eapply ids_dense_create_resource; [exact E5|].
  eapply ids_dense_create_note; [exact E4|].
  eapply ids_dense_convert_all; [exact E3|].
  eauto using ids_dense_same_store.
Qed.

Lemma refs_exist_process_video video_id target sub st r st' :
  process_video w video_id target sub st = (r, st') →
  refs_exist st → refs_exist st'.
Proof.
  unfold process_video. intros H Hd.
  pose proof (download_subtitles_store video_id sub st) as Hs.
  destruct (download_subtitles w video_id sub st) as [[[lines lang]|] st1];
    simpl in Hs; [|simplify_eq; eauto using refs_exist_same_store].
  pose proof (extract_all_store lines lang st1) as Hs2.
  destruct (extract_all w lines lang st1) as [all_vocab st2]. simpl in Hs2.
  destruct (convert_all _ target st2) as [ids st3] eqn:E3.
  assert (refs_exist st3) as [Hrv Hvt].
  { eapply refs_exist_convert_all; [exact E3|].
    eauto using refs_exist_same_store. }
  apply convert_all_spec in E3 as (vs & Hv & -> & _).
  unfold_store.
  destruct (truthy_str (note_text video_id lang)); simpl in H;
    simplify_eq; constructor; simpl; eauto.
  all: intros r ids i [Hin| ->%list_elem_of_singleton]%elem_of_app;
    [by eauto|].
  all: simpl; intros Hids Hi; rewrite Hv, fmap_app, elem_of_app; right.
  all: destruct (v_id <$> vs) eqn:Evs; simpl in Hids; by simplify_eq.
Qed.

(** ** Deduplication *)

Lemma elem_of_first_occurrences l x : x ∈ first_occurrences l ↔ x ∈ l.
Proof.
  induction l as [|y l IH]; simpl; [done|].
  rewrite !elem_of_cons, list_elem_of_filter, IH.
  destruct (decide (x = y)); naive_solver.
Qed.

Lemma NoDup_first_occurrences l : NoDup (first_occurrences l).
Proof.
  induction l as [|y l IH]; simpl; constructor.
  - rewrite list_elem_of_filter. naive_solver.
  - by apply NoDup_filter.
Qed.

Lemma length_first_occurrences l :
  length (first_occurrences l) = size (list_to_set l : gset (str * str)).
Proof.
  rewrite <- (size_list_to_set (C:=gset (str * str)))
    by apply NoDup_first_occurrences.
  f_equal. apply set_eq. intros x.
  by rewrite !elem_of_list_to_set, elem_of_first_occurrences.
Qed.

Lemma unique_vocab_keys_from u l :
  (foldl unique_vocab_add u l).*1
  = u.*1 ++ filter (fun k => k ∉ u.*1) (first_occurrences (vocab_key <$> l)).
Proof.
  revert u. induction l as [|x l IH]; intros u; simpl.
  - by rewrite app_nil_r.
  - rewrite IH. unfold unique_vocab_add. fold (vocab_key x).
    destruct (decide (vocab_key x ∈ u.*1)) as [Hin|Hout].
    + rewrite filter_cons_False by naive_solver.
      rewrite list_filter_filter. f_equal.
      apply list_filter_iff. intros k. naive_solver.
    + rewrite filter_cons_True by done.
      rewrite list_filter_filter, fmap_app, <- app_assoc. simpl.
      do 2 f_equal. apply list_filter_iff. intros k.
      rewrite elem_of_app, list_elem_of_singleton. naive_solver.
Qed.

Lemma filter_all {A} (P : A → Prop) `{!∀ x, Decision (P x)} (l : list A) :
  (∀ x, P x) → filter P l = l.
Proof.
  intros HP. induction l as [|x l IH]; [done|].
  by rewrite filter_cons_True, IH.
Qed.

Lemma unique_vocab_keys all_vocab :
  (unique_vocab_of all_vocab).*1 = first_occurrences (vocab_key <$> all_vocab).
Proof.
  unfold unique_vocab_of. rewrite unique_vocab_keys_from. simpl.
  apply filter_all. intros k. apply not_elem_of_nil.
Qed.

Lemma unique_vocab_keyed u l :
  Forall (fun kv => kv.1 = vocab_key kv.2) u →
  Forall (fun kv => kv.1 = vocab_key kv.2) (foldl unique_vocab_add u l).
Proof.
  revert u. induction l as [|x l IH]; intros u Hu; simpl; [done|].
  apply IH. unfold unique_vocab_add. case_decide; [done|].
  apply Forall_app. split; [done|]. by constructor.
Qed.

Lemma unique_vocab_originals all_vocab :
  original <$> (unique_vocab_of all_vocab).*2
  = fst <$> first_occurrences (vocab_key <$> all_vocab).
Proof.
  rewrite <- unique_vocab_keys.
  pose proof (unique_vocab_keyed [] all_vocab (Forall_nil_2 _)) as H.
  fold (unique_vocab_of all_vocab) in H.
  induction H as [|[k v] u Hk _ IH]; [done|].
  rewrite !fmap_cons, IH. simpl in *. by rewrite Hk.
Qed.

(** ** The loop, the writer and the script *)

Lemma save_jsonl_files_store target sub st :
  same_store st (save_jsonl_files w target sub st).2.
Proof.
  unfold save_jsonl_files, write_jsonl.
  repeat (case_match; simpl in *; simplify_eq);
    unfold log; simpl; by repeat split.
Qed.

Section Invariant.

Variable P : State → Prop.
Hypothesis P_same_store : ∀ st st', same_store st st' → P st → P st'.
Hypothesis P_process_video : ∀ video_id target sub st r st',
  process_video w video_id target sub st = (r, st') → P st → P st'.

Lemma video_loop_invariant debug target sub idx video_ids st :
  P st → P (video_loop w debug target sub idx video_ids st).
Proof.
  revert idx st. induction video_ids as [|video_id video_ids IH];
    intros idx st HP; [done|].
  rewrite video_loop_cons.
  destruct (process_video w video_id target sub st) as [[id|] st1] eqn:E;
    [destruct (debug && (1 <=? idx)%nat)|]; eauto.
Qed.

Lemma main_invariant path debug target sub st :
  P st → P (main w path debug target sub st).2.
Proof.
  intros HP. unfold main. destruct (read_lines w path); [|done].
  destruct (get_openai_client w); [|done].
  pose proof (save_jsonl_files_store target sub
    (video_loop w debug target sub 0 (video_ids_of l) st)) as Hs.
  destruct (save_jsonl_files w target sub _) as [[[]|] st2]; simpl in *;
    eauto using video_loop_invariant.
Qed.

Lemma script_invariant path debug :
  P initial_state → P (script w path debug).2.
Proof.
  intros HP. unfold script.
  destruct (parse_lang_codes _) as [[target sub]|]; [|done].
  by apply main_invariant.
Qed.

End Invariant.

(** ** Ids and references at the end of a run *)

(** C2: when the script ends, the ids of each kind, in the order in which
    the entries were appended, are [str(1)], [str(2)], ..., [str(n)] for
    the [n] entries of that kind, and no id occurs twice; this holds for
    every world, so for every number of videos. *)
Theorem ids_consecutive_from_one path debug :
  let st := (script w path debug).2 in
  (r_id <$> resource_data st = first_ids (length (resource_data st)) ∧
   v_id <$> vocab_data st = first_ids (length (vocab_data st)) ∧
   t_id <$> translation_data st = first_ids (length (translation_data st)) ∧
   n_id <$> note_data st = first_ids (length (note_data st))) ∧
  (NoDup (r_id <$> resource_data st) ∧ NoDup (v_id <$> vocab_data st) ∧
   NoDup (t_id <$> translation_data st) ∧ NoDup (n_id <$> note_data st)).
Proof.
  intros st.
  assert (ids_dense st) as [H1 H2 H3 H4 _ _ _ _].
  { apply script_invariant;
      eauto using ids_dense_same_store, ids_dense_process_video,
        ids_dense_initial. }
  split; [done|]. rewrite H1, H2, H3, H4.
  repeat split; apply NoDup_first_ids.
Qed.

(** C8: when the script ends, every id in the [vocab] list of a resource
    is the id of an entry of [vocab_data], and every id in the
    [translations] list of a vocab entry is the id of an entry of
    [translation_data]. *)
Theorem references_resolve path debug :
  let st := (script w path debug).2 in
  (∀ r ids id, r ∈ resource_data st → r_vocab r = Some ids → id ∈ ids →
     ∃ v, v ∈ vocab_data st ∧ v_id v = id) ∧
  (∀ v ids id, v ∈ vocab_data st → v_translations v = Some ids → id ∈ ids →
     ∃ t, t ∈ translation_data st ∧ t_id t = id).
Proof.
  intros st.
  assert (refs_exist st) as [Hrv Hvt].
  { apply script_invariant;
      eauto using refs_exist_same_store, refs_exist_process_video.
    constructor; simpl; intros ? ? ? []%elem_of_nil. }
  split.
  - intros r ids id Hr Hids Hid.
    specialize (Hrv r ids id Hr Hids Hid).
    apply list_elem_of_fmap in Hrv as (v & -> & Hv). eauto.
  - intros v ids id Hv Hids Hid.
    specialize (Hvt v ids id Hv Hids Hid).
    apply list_elem_of_fmap in Hvt as (t & -> & Ht). eauto.
Qed.

(** ** The extractor *)


Lemma chosen_original_get d :
  original_or_word (PDict d) = Some (chosen_original d).
Proof.
  unfold original_or_word, chosen_original. simpl.
  by destruct (truthy (default PNone (assoc (lit "original") d))).
Qed.


(** The comprehension does what the spec says when every item is an
    object with string fields, and raises otherwise. *)
Lemma vocab_objects_spec objs :
  vocab_objects objs =
  if forallb string_fields objs then Some (omap accepted_pair objs) else None.
Proof.
  induction objs as [|x objs IH]; [done|]. simpl. rewrite IH.
  destruct x as [| | | | |l|d]; try done.
  rewrite chosen_original_get. simpl.
  destruct (chosen_original d) as [|b|z|f|s|l|d0]; simpl;
    [ done | by destruct b | by destruct (z =? 0)%Z
    | by destruct (PrimFloat.eqb f 0) | | by destruct l | by destruct d0 ].
  destruct s as [|c s]; simpl; [done|].
  destruct (default PNone (assoc (lit "translation") d)); simpl; try done.
  by destruct (forallb string_fields objs).
Qed.


Lemma extract_vocab_from_line_result line lang st :
  (extract_vocab_from_line w line lang st).1
  = default [] (parsed_response w (chat_completions_create w (prompt line lang))
                ≫= interpret).
Proof. reflexivity. Qed.



(** ** What one video adds *)

Lemma accepted_pair_stripped obj v :
  accepted_pair obj = Some v →
  ∃ o t, original v = strip o ∧ translation v = strip t.
Proof.
  unfold accepted_pair. intros H. repeat case_match; simplify_eq.
  simpl. eauto.
Qed.

Lemma vocab_objects_stripped objs vs :
  vocab_objects objs = Some vs →
  Forall (fun v => ∃ o t, original v = strip o ∧ translation v = strip t) vs.
Proof.
  rewrite vocab_objects_spec. destruct (forallb string_fields objs); [|done].
  intros [= <-]. clear. induction objs as [|obj objs IH]; [constructor|].
  simpl. destruct (accepted_pair obj) as [v|] eqn:E; [|done].
  constructor; [|done]. by eapply accepted_pair_stripped.
Qed.

Lemma interpret_stripped parsed vs :
  interpret parsed = Some vs →
  Forall (fun v => ∃ o t, original v = strip o ∧ translation v = strip t) vs.
Proof.
  unfold interpret, vocab_objects_at. intros H.
  repeat case_match; simplify_eq/=; try by constructor.
  all: repeat match goal with
       | H : _ ≫= _ = Some _ |- _ =>
           apply bind_Some in H as (? & ? & ?)
       end; eauto using vocab_objects_stripped.
Qed.

Lemma extract_all_stripped lines lang st :
  Forall (fun v => ∃ o t, original v = strip o ∧ translation v = strip t)
    (extract_all w lines lang st).1.
Proof.
  revert st. induction lines as [|line lines IH]; intros st; [constructor|].
  rewrite extract_all_cons.
  pose proof (extract_vocab_from_line_result line lang st) as Hr.
  destruct (extract_vocab_from_line w line lang st) as [objs st1].
  specialize (IH st1). destruct (extract_all w lines lang st1) as [more st2].
  simpl in *. apply Forall_app. split; [|done]. subst objs.
  destruct (parsed_response w _ ≫= interpret) as [vs|] eqn:E; [|constructor].
  apply bind_Some in E as (parsed & _ & Hi). simpl.
  by eapply interpret_stripped.
Qed.

Lemma unique_vocab_elem all_vocab v :
  v ∈ all_vocab → v ∈ (unique_vocab_of all_vocab).*2.
Proof.
  intros Hin.
  assert (vocab_key v ∈ (unique_vocab_of all_vocab).*1) as Hk.
  { rewrite unique_vocab_keys, elem_of_first_occurrences.
    by apply list_elem_of_fmap_2. }
  apply list_elem_of_fmap in Hk as ([k v'] & Hk & Hkv).
  pose proof (unique_vocab_keyed [] all_vocab (Forall_nil_2 _)) as HF.
  fold (unique_vocab_of all_vocab) in HF.
  rewrite Forall_forall in HF. specialize (HF _ Hkv). simpl in *.
  assert (v' = v) as <-.
  { destruct v, v'. unfold vocab_key in *. simpl in *. congruence. }
  by apply (list_elem_of_fmap_2 snd _ (k, v')).
Qed.

Lemma convert_all_entries values target st ids st' :
  convert_all values target st = (ids, st') →
  ∃ vs ts, vocab_data st' = vocab_data st ++ vs ∧
    translation_data st' = translation_data st ++ ts ∧
    Forall2 (fun e v => v_content e = original v ∧
                        (translation v = [] → v_translations e = None))
      vs values ∧
    Forall (fun t => t_content t ≠ []) ts.
Proof.
  revert st ids st'. induction values as [|v values IH]; intros st ids st' H.
  - simpl in H. simplify_eq. exists [], []. rewrite !app_nil_r.
    by repeat constructor.
  - rewrite convert_all_cons in H.
    destruct (convert_to_vocab_entry v target st) as [id st1] eqn:E1.
    destruct (convert_all values target st1) as [ids' st2] eqn:E2.
    simplify_eq.
    apply convert_to_vocab_entry_spec in E1
      as (e & Hv & _ & Hc & _ & _ & _ & _ & _ & _ & _ & Hcase).
    apply IH in E2 as (vs & ts & Hv' & Ht' & HF & HT).
    destruct Hcase as [(Hnil & Ht & _ & Hn)|(Hne & t & Ht & _ & Hct & _)].
    + exists (e :: vs), ts. rewrite Hv', Hv, Ht', Ht, <- app_assoc.
      repeat split; [|done]. by constructor.
    + exists (e :: vs), (t :: ts).
      rewrite Hv', Hv, Ht', Ht, <- !app_assoc.
      repeat split; constructor; try done. by rewrite Hct.
Qed.

Lemma process_video_entries video_id target sub st transcript :
  fetch w video_id [sub] = Some transcript →
  ∃ vs ts,
    vocab_data (process_video w video_id target sub st).2
      = vocab_data st ++ vs ∧
    translation_data (process_video w video_id target sub st).2
      = translation_data st ++ ts ∧
    Forall2 (fun e v => v_content e = original v ∧
                        (translation v = [] → v_translations e = None))
      vs (unique_vocab_of
            (extract_all w (subtitle_lines transcript) sub st).1).*2 ∧
    Forall (fun t => t_content t ≠ []) ts.
Proof.
  intros Hf. unfold process_video.
  rewrite (download_subtitles_ok _ _ _ _ Hf).
  rewrite (extract_all_pure _ _ st (log (EvFetch video_id [sub]) st)).
  pose proof (extract_all_store (subtitle_lines transcript) sub
    (log (EvFetch video_id [sub]) st)) as (_ & S2 & S3 & _).
  destruct (extract_all w _ sub (log _ st)) as [all_vocab st2].
  simpl in S2, S3. simpl.
  destruct (convert_all _ target st2) as [ids st3] eqn:E3.
  apply convert_all_entries in E3 as (vs & ts & Hv & Ht & HF & HT).
  exists vs, ts. unfold_store. simpl. by rewrite Hv, Ht, S2, S3.
Qed.

(** C1: the vocab entries that one video adds are as many as there are
    distinct (original, translation) pairs among the pairs extracted from
    its subtitle lines, whose two texts are stripped; their contents are the
    originals of these pairs in the order of their first occurrences. The
    state the video starts from plays no part: run on the same video a
    second time, the count is added once more, so a pair of an earlier
    video gets a new entry. *)
Theorem vocab_count_is_distinct_pairs video_id target sub st transcript :
  fetch w video_id [sub] = Some transcript →
  let all_vocab := (extract_all w (subtitle_lines transcript) sub st).1 in
  let distinct : gset (str * str) := list_to_set (vocab_key <$> all_vocab) in
  let st' := (process_video w video_id target sub st).2 in
  let st'' := (process_video w video_id target sub st').2 in
  Forall (fun v => ∃ o t, original v = strip o ∧ translation v = strip t)
    all_vocab ∧
  (∃ vs, vocab_data st' = vocab_data st ++ vs ∧
     length vs = size distinct ∧
     v_content <$> vs = fst <$> first_occurrences (vocab_key <$> all_vocab)) ∧
  length (vocab_data st'') = (length (vocab_data st) + 2 * size distinct)%nat.
Proof.
  intros Hf all_vocab distinct st' st''.
  split; [apply extract_all_stripped|].
  assert (∀ s, ∃ vs,
    vocab_data (process_video w video_id target sub s).2 = vocab_data s ++ vs
    ∧ length vs = size distinct
    ∧ v_content <$> vs = fst <$> first_occurrences (vocab_key <$> all_vocab))
    as Hone.
  { intros s.
    destruct (process_video_spec video_id target sub s transcript Hf)
      as (s' & vs & n & r & Hp & Hv & Hc & _).
    rewrite (extract_all_pure _ _ _ st) in Hc. fold all_vocab in Hc.
    rewrite unique_vocab_originals in Hc.
    exists vs. rewrite Hp. split; [done|]. split; [|done].
    apply (f_equal length) in Hc. rewrite !length_fmap in Hc.
    rewrite Hc. apply length_first_occurrences. }
  split; [apply Hone|].
  destruct (Hone st) as (vs & Hv & Hl & _).
  destruct (Hone st') as (vs' & Hv' & Hl' & _).
  subst st''. rewrite Hv'. subst st'. rewrite Hv, !length_app. lia.
Qed.

(** C5: for a pair whose stripped translation is empty,
    [create_translation] returns no id and leaves the translations as they
    are, while [convert_to_vocab_entry] still appends a vocab entry for the
    original, and that entry has no [translations] key. In a video, such a
    pair among the extracted ones has a vocab entry without [translations]
    among the entries the video adds, and no translation that the video
    adds has an empty content. *)
Theorem empty_translation_keeps_vocab vocab_obj target st :
  translation vocab_obj = [] →
  let st' := (convert_to_vocab_entry vocab_obj target st).2 in
  create_translation (translation vocab_obj) None st = (None, st) ∧
  translation_data st' = translation_data st ∧
  (∃ e, vocab_data st' = vocab_data st ++ [e] ∧
     (convert_to_vocab_entry vocab_obj target st).1 = v_id e ∧
     v_content e = original vocab_obj ∧ v_translations e = None) ∧
  (∀ video_id sub transcript,
     fetch w video_id [sub] = Some transcript →
     vocab_obj ∈ (extract_all w (subtitle_lines transcript) sub st).1 →
     ∃ vs ts,
       vocab_data (process_video w video_id target sub st).2
         = vocab_data st ++ vs ∧
       translation_data (process_video w video_id target sub st).2
         = translation_data st ++ ts ∧
       (∃ e, e ∈ vs ∧ v_content e = original vocab_obj ∧
             v_translations e = None) ∧
       (∀ t, t ∈ ts → t_content t ≠ translation vocab_obj)).
Proof.
  intros Ht st'. split; [by rewrite Ht|].
  split; [|split].
  - destruct (convert_to_vocab_entry vocab_obj target st) as [id s] eqn:E.
    apply convert_to_vocab_entry_spec in E
      as (e & Hv & -> & Hc & _ & _ & _ & _ & _ & _ & _ & Hcase).
    by destruct Hcase as [(_ & Htd & _ & Hn)|(Hne & _)].
  - destruct (convert_to_vocab_entry vocab_obj target st) as [id s] eqn:E.
    apply convert_to_vocab_entry_spec in E
      as (e & Hv & -> & Hc & _ & _ & _ & _ & _ & _ & _ & Hcase).
    destruct Hcase as [(_ & Htd & _ & Hn)|(Hne & _)]; [|done].
    by exists e.
  - intros video_id sub transcript Hf Hin%unique_vocab_elem.
    destruct (process_video_entries video_id target sub st transcript Hf)
      as (vs & ts & Hv & Htd & HF & HT).
    exists vs, ts. split; [done|]. split; [done|]. split.
    + clear Hv. induction HF as [|e v vs values [Hc Hn] _ IH];
        [by apply elem_of_nil in Hin|].
      apply elem_of_cons in Hin as [<-|Hin].
      * exists e. split; [apply list_elem_of_here|]. auto.
      * destruct (IH Hin) as (e' & ? & ?). exists e'.
        split; [by apply list_elem_of_further|done].
    + rewrite Forall_forall in HT. rewrite Ht. apply HT.
Qed.

(** ** The language codes *)

Lemma length_split sep s :
  length (split sep s) = S (length (filter (fun c => c = sep) s)).
Proof.
  induction s as [|c s IH]; [done|]. rewrite filter_cons.
  cbn [split].
  destruct (N.eqb_spec c sep) as [->|Hc].
  - rewrite decide_True by done. simpl. by rewrite IH.
  - rewrite decide_False by done.
    destruct (split sep s); simpl in *; [done|]. by rewrite <- IH.
Qed.

Lemma split_nonempty sep s : split sep s ≠ [].
Proof.
  intros H%(f_equal length). by rewrite length_split in H.
Qed.

Lemma split_one sep s u : split sep s = [u] → s = u ∧ sep ∉ u.
Proof.
  revert u. induction s as [|c s IH]; intros u; simpl.
  - intros [= <-]. split; [done|]. apply not_elem_of_nil.
  - pose proof (split_nonempty sep s) as Hne.
    destruct (N.eqb_spec c sep) as [->|Hc]; [by destruct (split sep s)|].
    destruct (split sep s) as [|p ps]; [done|]. intros [= <- ->].
    destruct (IH p eq_refl) as [-> Hp]. split; [done|].
    rewrite elem_of_cons. naive_solver.
Qed.

Lemma split_two sep s t u :
  split sep s = [t; u] → s = t ++ sep :: u ∧ (sep ∉ t) ∧ (sep ∉ u).
Proof.
  revert t. induction s as [|c s IH]; intros t; simpl; [done|].
  destruct (N.eqb_spec c sep) as [->|Hc].
  - intros [= <- Hs]. apply split_one in Hs as [-> Hu].
    split; [done|]. split; [apply not_elem_of_nil|done].
  - destruct (split sep s) as [|p ps]; [done|]. intros [= <- ->].
    destruct (IH p eq_refl) as (-> & Hp & Hu). split; [done|].
    split; [|done]. rewrite elem_of_cons. naive_solver.
Qed.

Lemma split_no_sep sep s : sep ∉ s → split sep s = [s].
Proof.
  induction s as [|c s IH]; [done|]. rewrite not_elem_of_cons.
  intros [Hc Hs]. simpl. rewrite (IH Hs).
  by destruct (N.eqb_spec c sep) as [->|_].
Qed.

Lemma split_app_sep sep t u :
  sep ∉ t → split sep (t ++ sep :: u) = t :: split sep u.
Proof.
  induction t as [|c t IH]; simpl.
  - by rewrite N.eqb_refl.
  - rewrite not_elem_of_cons. intros [Hc Ht]. rewrite (IH Ht).
    by destruct (N.eqb_spec c sep) as [->|_].
Qed.

Lemma parse_lang_codes_Some filename target sub :
  parse_lang_codes filename = Some (target, sub) ↔
  filename = target ++ underscore :: sub ∧
  (underscore ∉ target) ∧ (underscore ∉ sub).
Proof.
  unfold parse_lang_codes. split.
  - destruct (split underscore filename) as [|t [|u [|? ?]]] eqn:E;
      try discriminate.
    intros [= <- <-]. by apply split_two.
  - intros (-> & Ht & Hu). by rewrite split_app_sep, split_no_sep.
Qed.

Lemma parse_lang_codes_None filename :
  length (filter (fun c => c = underscore) filename) ≠ 1%nat →
  parse_lang_codes filename = None.
Proof.
  intros Hn. unfold parse_lang_codes.
  pose proof (length_split underscore filename) as Hl.
  destruct (split underscore filename) as [|t [|u [|? ?]]]; try done.
  simpl in Hl. lia.
Qed.

(** C4: the two codes are the two pieces of the stem around its one
    underscore, and the script goes on to [main] with them; a stem with no
    underscore or with several makes the script end with status 1 in the
    initial state, before any video is looked at. *)
Theorem language_codes_from_filename path debug :
  let stem := path_stem w path in
  (∀ target sub,
     parse_lang_codes stem = Some (target, sub) ↔
     stem = target ++ underscore :: sub ∧
     (underscore ∉ target) ∧ (underscore ∉ sub)) ∧
  (∀ target sub,
     parse_lang_codes stem = Some (target, sub) →
     script w path debug = main w path debug target sub initial_state) ∧
  (length (filter (fun c => c = underscore) stem) ≠ 1%nat →
   parse_lang_codes stem = None ∧
   script w path debug = (1%Z, initial_state)).
Proof.
  intros stem. split; [|split].
  - intros target sub. apply parse_lang_codes_Some.
  - intros target sub H. unfold script. fold stem. by rewrite H.
  - intros H%parse_lang_codes_None. split; [done|].
    unfold script. fold stem. by rewrite H.
Qed.

(** ** The subtitle language *)


(** ** Skipped videos and the exit status *)




(** ** The debug limit *)

(** What the debug test does: the loop ends after the first video at index
    1 or later that was processed without raising. *)
Lemma video_loop_debug_stop target sub idx video_id rest st id st1 :
  process_video w video_id target sub st = (Some id, st1) →
  (1 ≤ idx)%nat →
  video_loop w true target sub idx (video_id :: rest) st = st1.
Proof.
  intros Hp Hi. rewrite video_loop_cons, Hp. simpl.
  destruct idx; [lia|done].
Qed.

End Correctness.

(** * The claims on concrete runs *)

(** The run of the spec's first scenario: [es_en.txt] lists [abc123],
    every line of which gives (hola, hello), and [xyz789], which has no
    transcript. One resource, one vocab entry and one translation are made,
    and the four files are written under [sets/es/youtube-es-en]. *)
Lemma es_en_scenario :
  let '(status, st) := script es_en_world (lit "es_en.txt") true in
  status = 0%Z ∧
  r_title <$> resource_data st = [lit "YouTube Video - abc123"] ∧
  v_content <$> vocab_data st = [lit "hola"] ∧
  t_content <$> translation_data st = [lit "hello"] ∧
  fetched (trace st) = [lit "abc123"; lit "xyz789"] ∧
  omap (fun e => match e with EvWrite path _ => Some path | _ => None end)
    (trace st)
  = [lit "sets/es/youtube-es-en/resources.jsonl";
     lit "sets/es/youtube-es-en/vocab.jsonl";
     lit "sets/es/youtube-es-en/translations.jsonl";
     lit "sets/es/youtube-es-en/notes.jsonl"].
Proof. vm_compute. repeat split. Qed.

(** C1 on the video [abc123] of [es_en_world]: its two subtitle lines both
    give the pair (hola, hello), and one vocab entry is made. *)
Lemma vocab_count_is_distinct_pairs_witness :
  fetch es_en_world (lit "abc123") [lit "en"] = Some (two_lines (lit "en")) ∧
  length (extract_all es_en_world (subtitle_lines (two_lines (lit "en")))
            (lit "en") initial_state).1 = 2%nat ∧
  ∃ vs,
    vocab_data (process_video es_en_world (lit "abc123") (lit "es") (lit "en")
                  initial_state).2 = vs ∧
    length vs = 1%nat.
Proof.
  split; [reflexivity|]. split; [reflexivity|].
  destruct (vocab_count_is_distinct_pairs es_en_world (lit "abc123")
              (lit "es") (lit "en") initial_state (two_lines (lit "en"))
              eq_refl) as (_ & (vs & Hv & Hl & _) & _).
  exists vs. split; [exact Hv|]. rewrite Hl. vm_compute. reflexivity.
Defined.



(** C4 on the stems [es_en] and [es_en_us]. *)
Lemma language_codes_from_filename_witness :
  parse_lang_codes (path_stem es_en_world (lit "es_en.txt"))
    = Some (lit "es", lit "en") ∧
  script two_underscores_world (lit "es_en_us.txt") true
    = (1%Z, initial_state).
Proof.
  split.
  - destruct (language_codes_from_filename es_en_world (lit "es_en.txt") true)
      as (H & _ & _).
    apply H. split; [reflexivity|].
    split; apply (bool_decide_unpack _); vm_compute; exact I.
  - destruct (language_codes_from_filename two_underscores_world
                (lit "es_en_us.txt") true) as (_ & _ & H).
    apply H. vm_compute. discriminate.
Defined.

(** C5 on the pair (gato, empty), alone and in the video [abc123] of a
    world whose replies have a blank translation. *)
Lemma empty_translation_keeps_vocab_witness :
  let gato := mkVocabObject (lit "gato") [] in
  let st' := (convert_to_vocab_entry gato (lit "es") initial_state).2 in
  let st_video := (process_video blank_translation_world (lit "abc123")
                     (lit "es") (lit "en") initial_state).2 in
  (translation_data st' = [] ∧
   ∃ e, vocab_data st' = [e] ∧ v_content e = lit "gato" ∧
        v_translations e = None) ∧
  translation_data st_video = [] ∧
  ∃ e, e ∈ vocab_data st_video ∧ v_content e = lit "gato" ∧
       v_translations e = None.
Proof.
  destruct (empty_translation_keeps_vocab blank_translation_world
              (mkVocabObject (lit "gato") []) (lit "es") initial_state eq_refl)
    as (_ & Ht & (e & Hv & _ & Hc & Hn) & Hvideo).
  split; [split; [exact Ht|]|].
  { exists e. split; [exact Hv|]. split; [exact Hc|exact Hn]. }
  destruct (Hvideo (lit "abc123") (lit "en") (two_lines (lit "en")) eq_refl)
    as (vs & ts & Hvs & Hts & (e' & He' & Hc' & Hn') & _).
  { vm_compute. apply list_elem_of_here. }
  split; [reflexivity|].
  exists e'. rewrite Hvs. split; [exact He'|]. split; [exact Hc'|exact Hn'].
Defined.




(** C8 on [es_en_world]: the vocab id of its resource and the translation
    id of its vocab entry are there. *)
Lemma references_resolve_witness :
  let st := (script es_en_world (lit "es_en.txt") true).2 in
  (∃ v, v ∈ vocab_data st ∧ v_id v = lit "1") ∧
  (∃ t, t ∈ translation_data st ∧ t_id t = lit "1").
Proof.
  destruct (references_resolve es_en_world (lit "es_en.txt") true)
    as [Hr Hv].
  split.
  - apply (Hr (mkResource (lit "1") true (lit "es")
                 (resource_title (lit "abc123"))
                 (Some (resource_content (lit "abc123"))) (Some 1%Z) None
                 (Some [lit "1"]) (Some [lit "1"]) None) [lit "1"]).
    + vm_compute. apply list_elem_of_here.
    + reflexivity.
    + apply list_elem_of_here.
  - apply (Hv (mkVocab (lit "1") (lit "es") (lit "hola") None None
                 (Some true) (Some 1%Z) None (Some [lit "1"])) [lit "1"]).
    + vm_compute. apply list_elem_of_here.
    + reflexivity.
    + apply list_elem_of_here.
Defined.

(** C9: with the debug limit on and no transcript for the second of three
    videos, the loop goes on to the third one; when all three have a
    transcript it ends after the second. *)
Theorem debug_limit_passes_failed_video :
  let st := (script three_videos_world VIDEO_LIST_TXT
               RETURN_AFTER_TWO_VIDEOS).2 in
  let st_good := (script three_good_videos_world VIDEO_LIST_TXT
                    RETURN_AFTER_TWO_VIDEOS).2 in
  RETURN_AFTER_TWO_VIDEOS = true ∧
  fetched (trace st) = [lit "vid1"; lit "vid2"; lit "vid3"] ∧
  r_title <$> resource_data st
    = [resource_title (lit "vid1"); resource_title (lit "vid3")] ∧
  fetched (trace st_good) = [lit "vid1"; lit "vid2"].
Proof. repeat split. Qed.


(** * Further properties *)

(** ** Stripping *)

Lemma lstrip_split s :
  ∃ k, s = k ++ lstrip s ∧ forallb is_space k = true.
Proof.
  induction s as [|c s (k & Hk & Hs)]; [by exists []|]. simpl.
  destruct (is_space c) eqn:Ec.
  - exists (c :: k). simpl. rewrite Ec, Hs. split; [|done]. by f_equal.
  - by exists [].
Qed.

Lemma lstrip_head s c : head (lstrip s) = Some c → is_space c = false.
Proof.
  induction s as [|d s IH]; simpl; [done|].
  destruct (is_space d) eqn:Ed; [done|]. simpl. by intros [= <-].
Qed.

Lemma lstrip_id s :
  (∀ c, head s = Some c → is_space c = false) → lstrip s = s.
Proof.
  destruct s as [|c s]; [done|]. simpl. intros H. by rewrite (H c eq_refl).
Qed.

Lemma lstrip_blank s : forallb is_space s = true → lstrip s = [].
Proof.
  induction s as [|c s IH]; [done|]. simpl.
  intros [-> Hs]%andb_prop. auto.
Qed.

Lemma strip_trimmed s : trimmed (strip s).
Proof.
  unfold strip, rstrip. split; intros c.
  - rewrite head_reverse. intros Hc.
    destruct (lstrip_split (reverse (lstrip s))) as (k & Hk & _).
    apply (lstrip_head s). rewrite <- last_reverse, Hk, last_app.
    by rewrite Hc.
  - rewrite last_reverse. apply lstrip_head.
Qed.

Lemma strip_of_trimmed s : trimmed s → strip s = s.
Proof.
  intros [Hh Hl]. unfold strip, rstrip. rewrite (lstrip_id s Hh).
  rewrite lstrip_id; [apply reverse_involutive|].
  intros c. rewrite head_reverse. apply Hl.
Qed.

Lemma strip_blank s : forallb is_space s = true → strip s = [].
Proof. intros H. unfold strip, rstrip. by rewrite (lstrip_blank s H). Qed.

Lemma stripped_trimmed (s : str) : (∃ o, s = strip o) → trimmed s.
Proof. intros [o ->]. apply strip_trimmed. Qed.

Lemma clean_lines_spec (l : list str) :
  Forall (fun s => s ≠ [] ∧ trimmed s) (video_ids_of l) ∧
  (∀ text, text ∈ l → strip text ≠ [] → strip text ∈ video_ids_of l) ∧
  (∀ s, s ∈ video_ids_of l → ∃ text, text ∈ l ∧ s = strip text) ∧
  video_ids_of (video_ids_of l) = video_ids_of l.
Proof.
  unfold video_ids_of.
  assert (Forall (fun s => s ≠ [] ∧ trimmed s)
            (map strip (filter (fun line => truthy_str (strip line) = true) l)))
    as HF.
  { apply Forall_fmap, Forall_forall. intros x [Hx _]%list_elem_of_filter.
    simpl. split; [by destruct (strip x)|apply strip_trimmed]. }
  split; [done|]. split; [|split].
  - intros text Hin Hne. apply list_elem_of_fmap_2, list_elem_of_filter.
    split; [by destruct (strip text)|done].
  - intros s (text & -> & [_ Hin]%list_elem_of_filter)%list_elem_of_fmap.
    eauto.
  - induction HF as [|s k [Hne Ht] _ IH]; [done|].
    rewrite filter_cons_True.
    + cbn [map]. rewrite IH. by rewrite (strip_of_trimmed s Ht).
    + rewrite (strip_of_trimmed s Ht). by destruct s.
Qed.

(** X1: the video ids read from the list file and the subtitle lines taken
    from a transcript are never empty and have no whitespace at either end;
    each is the stripped form of an entry, no entry that is not blank is
    lost, and cleaning a clean list changes nothing. *)
Theorem lines_are_trimmed_and_nonblank (lines : list str)
    (transcript : FetchedTranscript) :
  (Forall (fun s => s ≠ [] ∧ trimmed s) (video_ids_of lines) ∧
   (∀ text, text ∈ lines → strip text ≠ [] →
      strip text ∈ video_ids_of lines) ∧
   (∀ s, s ∈ video_ids_of lines → ∃ text, text ∈ lines ∧ s = strip text) ∧
   video_ids_of (video_ids_of lines) = video_ids_of lines) ∧
  (Forall (fun s => s ≠ [] ∧ trimmed s) (subtitle_lines transcript) ∧
   (∀ text, text ∈ entries transcript → strip text ≠ [] →
      strip text ∈ subtitle_lines transcript) ∧
   (∀ s, s ∈ subtitle_lines transcript →
      ∃ text, text ∈ entries transcript ∧ s = strip text)).
Proof.
  split; [apply clean_lines_spec|].
  destruct (clean_lines_spec (entries transcript)) as (H1 & H2 & H3 & _).
  done.
Qed.

(** X2: the truthiness test on 'original' (or 'word') comes before the
    stripping, so an original that is not empty but all whitespace is
    accepted, and the vocab entry made for it has an empty content. *)
Theorem blank_original_gives_empty_content d ws t target st :
  ws ≠ [] → forallb is_space ws = true →
  original_or_word (PDict d) = Some (PStr ws) →
  assoc (lit "translation") d = Some (PStr t) →
  vocab_objects [PDict d] = Some [mkVocabObject [] (strip t)] ∧
  v_content <$> vocab_data
    (convert_to_vocab_entry (mkVocabObject [] (strip t)) target st).2
  = (v_content <$> vocab_data st) ++ [[]].
Proof.
  intros Hne Hws Ho Ht. split.
  - cbn [vocab_objects]. rewrite Ho. simpl. destruct ws as [|c ws]; [done|].
    simpl. rewrite Ht. simpl. unfold VocabObject_init. simpl.
    by rewrite (strip_blank (c :: ws) Hws).
  - destruct (convert_to_vocab_entry _ target st) as [id st'] eqn:E.
    apply convert_to_vocab_entry_spec in E as (e & Hv & _ & Hc & _).
    simpl in *. rewrite Hv, fmap_app. simpl. by rewrite Hc.
Qed.

(** ** The trace of a run *)

Section Trace.

Context (w : World).

Lemma process_video_trace video_id target sub st :
  trace (process_video w video_id target sub st).2
  = trace st ++ video_events w sub video_id.
Proof.
  unfold video_events, video_prompts.
  destruct (fetch w video_id [sub]) as [transcript|] eqn:Hf.
  - destruct (process_video_spec w video_id target sub st transcript Hf)
      as (s' & vs & n & r & Hp & _ & _ & _ & _ & _ & _ & _ & _ & Htr).
    rewrite Hp. simpl. rewrite Htr, extract_all_trace. unfold log. simpl.
    rewrite <- app_assoc. simpl. by rewrite <- list_fmap_compose.
  - by rewrite (process_video_fail w _ _ _ _ Hf).
Qed.

Lemma video_loop_trace debug target sub idx video_ids st :
  ∃ k,
    trace (video_loop w debug target sub idx video_ids st)
    = trace st ++ (take k video_ids ≫= video_events w sub) ∧
    (debug = false → k = length video_ids).
Proof.
  revert idx st. induction video_ids as [|video_id video_ids IH];
    intros idx st.
  - exists 0%nat. simpl. by rewrite app_nil_r.
  - rewrite video_loop_cons.
    pose proof (process_video_trace video_id target sub st) as Ht.
    destruct (process_video w video_id target sub st) as [[id|] st1];
      simpl in Ht.
    + destruct (debug && (1 <=? idx)%nat) eqn:Ed.
      * exists 1%nat. simpl. rewrite Ht.
        split; [by rewrite app_nil_r|]. intros ->. done.
      * destruct (IH (S idx) st1) as (k & Hk & Hd). exists (S k).
        rewrite Hk, Ht, <- app_assoc. simpl. split; [done|].
        intros ?. f_equal. auto.
    + destruct (IH (S idx) st1) as (k & Hk & Hd). exists (S k).
      rewrite Hk, Ht, <- app_assoc. simpl. split; [done|].
      intros ?. f_equal. auto.
Qed.

Lemma completions_read ps :
  prompts (EvCompletion <$> ps) = ps ∧
  fetched (EvCompletion <$> ps) = [] ∧
  written (EvCompletion <$> ps) = [] ∧
  made_dirs (EvCompletion <$> ps) = [].
Proof.
  induction ps as [|p ps (IH1 & IH2 & IH3 & IH4)]; [done|].
  unfold prompts, fetched, written, made_dirs in *. csimpl.
  by rewrite IH1, IH2, IH3, IH4.
Qed.



Lemma written_video_events sub video_ids :
  written (video_ids ≫= video_events w sub) = [] ∧
  made_dirs (video_ids ≫= video_events w sub) = [].
Proof.
  induction video_ids as [|video_id video_ids [IH1 IH2]]; [done|].
  destruct (completions_read (video_prompts w sub video_id))
    as (_ & _ & H3 & H4).
  rewrite bind_cons. unfold written, made_dirs in *.
  rewrite !omap_app, IH1, IH2, !app_nil_r.
  unfold video_events. csimpl. by rewrite H3, H4.
Qed.

Lemma written_write_events files :
  written (write_event <$> files) = files ∧
  made_dirs (write_event <$> files) = [] ∧
  fetched (write_event <$> files) = [] ∧
  prompts (write_event <$> files) = [].
Proof.
  induction files as [|[path rows] files (IH1 & IH2 & IH3 & IH4)]; [done|].
  unfold written, made_dirs, fetched, prompts in *. csimpl.
  by rewrite IH1, IH2, IH3, IH4.
Qed.

(** [save_jsonl_files] in full: nothing at all when the directory cannot be
    made, else the directory and then the files up to the first one that
    cannot be written. *)
Lemma save_jsonl_files_trace target sub st :
  let dir := output_dir target sub in
  let files := output_files target sub st in
  let r := save_jsonl_files w target sub st in
  (mkdir w dir = false ∧ r = (None, st)) ∨
  (mkdir w dir = true ∧
   ∃ k, (k ≤ 4)%nat ∧
     trace r.2 = trace st ++ EvMkdir dir :: (write_event <$> take k files) ∧
     (∀ file, file ∈ take k files → write_file w file.1 = true) ∧
     (∀ file, drop k files !! 0%nat = Some file →
        write_file w file.1 = false) ∧
     (r.1 = Some () ↔ k = 4%nat)).
Proof.
  intros dir files r. subst r. unfold save_jsonl_files, write_jsonl.
  fold dir. destruct (mkdir w dir) eqn:Em; cbn; [right|by left].
  split; [done|].
  destruct (write_file w (dir ++ lit "/" ++ lit "resources.jsonl")) eqn:E1;
    [|exists 0%nat].
  1: destruct (write_file w (dir ++ lit "/" ++ lit "vocab.jsonl")) eqn:E2;
    [|exists 1%nat].
  1: destruct (write_file w (dir ++ lit "/" ++ lit "translations.jsonl"))
       eqn:E3; [|exists 2%nat].
  1: destruct (write_file w (dir ++ lit "/" ++ lit "notes.jsonl")) eqn:E4;
    [exists 4%nat|exists 3%nat].
  all: cbn; repeat split; try lia; try done.
  all: try (unfold log; cbn; by rewrite <- ?app_assoc).
  all: try (by intros file [= <-]).
  all: intros file; rewrite ?elem_of_cons, ?elem_of_nil; naive_solver.
Qed.

End Trace.

(** ** The entries a video adds, field by field *)

Lemma convert_to_vocab_entry_added v target st :
  let st' := (convert_to_vocab_entry v target st).2 in
  let ts := match translation v with
            | [] => []
            | _ :: _ =>
                [mkTranslation (py_str (translation_id st + 1))
                   (translation v) None]
            end in
  let e := mkVocab (py_str (vocab_id st + 1)) target (original v)
             None None (Some true) (Some 1%Z) None
             (match ts with [] => None | _ => Some (t_id <$> ts) end) in
  (convert_to_vocab_entry v target st).1 = v_id e ∧
  vocab_data st' = vocab_data st ++ [e] ∧
  translation_data st' = translation_data st ++ ts ∧
  vocab_id st' = vocab_id st + 1 ∧
  translation_id st' = translation_id st + N.of_nat (length ts) ∧
  resource_data st' = resource_data st ∧ note_data st' = note_data st ∧
  resource_id st' = resource_id st ∧ note_id st' = note_id st ∧
  trace st' = trace st.
Proof.
  unfold convert_to_vocab_entry. unfold_store.
  destruct (translation v) as [|c s] eqn:Et; simpl.
  - rewrite app_nil_r, N.add_0_r. by repeat split.
  - pose proof (py_str_nonempty (translation_id st + 1)) as Hne.
    destruct (py_str (translation_id st + 1)) as [|d ds] eqn:Ed; [done|].
    simpl. by repeat split.
Qed.

Lemma unique_vocab_subset_from u l (X : VocabObject → Prop) :
  Forall (fun kv => X kv.2) u → Forall X l →
  Forall (fun kv => X kv.2) (foldl unique_vocab_add u l).
Proof.
  revert u. induction l as [|x l IH]; intros u Hu Hl; simpl; [done|].
  apply Forall_cons in Hl as [Hx Hl]. apply IH; [|done].
  unfold unique_vocab_add. case_decide; [done|].
  apply Forall_app. split; [done|]. by constructor.
Qed.

Lemma unique_vocab_subset all_vocab v :
  v ∈ (unique_vocab_of all_vocab).*2 → v ∈ all_vocab.
Proof.
  intros ([k v'] & -> & Hin)%list_elem_of_fmap.
  assert (Forall (fun x => x ∈ all_vocab) all_vocab) as Hall.
  { by apply Forall_forall. }
  pose proof (unique_vocab_subset_from [] all_vocab (fun x => x ∈ all_vocab)
    (Forall_nil_2 _) Hall) as H.
  rewrite Forall_forall in H. apply (H _ Hin).
Qed.

Lemma convert_all_added values target st :
  let st' := (convert_all values target st).2 in
  ∃ vs ts,
    (convert_all values target st).1 = v_id <$> vs ∧
    vocab_data st' = vocab_data st ++ vs ∧
    translation_data st' = translation_data st ++ ts ∧
    resource_data st' = resource_data st ∧ note_data st' = note_data st ∧
    resource_id st' = resource_id st ∧ note_id st' = note_id st ∧
    Forall2 (fun e v =>
               v_language e = target ∧ v_content e = original v ∧
               v_consideredCharacter e = None ∧
               v_consideredSentence e = None ∧
               v_consideredWord e = Some true ∧ v_priority e = Some 1%Z ∧
               v_notes e = None ∧
               (translation v = [] ↔ v_translations e = None) ∧
               (∀ ids, v_translations e = Some ids → length ids = 1%nat))
      vs values ∧
    Forall (fun t => (∃ v, v ∈ values ∧ t_content t = translation v) ∧
                     t_content t ≠ [] ∧ t_notes t = None) ts ∧
    vs ≫= (fun e => default [] (v_translations e)) = t_id <$> ts.
Proof.
  revert st. induction values as [|v values IH]; intros st.
  - exists [], []. simpl. rewrite !app_nil_r. by repeat split.
  - rewrite convert_all_cons.
    pose proof (convert_to_vocab_entry_added v target st) as Hone.
    destruct (convert_to_vocab_entry v target st) as [id st1].
    specialize (IH st1).
    destruct (convert_all values target st1) as [ids st2].
    simpl in *.
    destruct Hone as (-> & Hv & Ht & _ & _ & Hr & Hn & Hri & Hni & _).
    destruct IH as (vs & ts & -> & Hv' & Ht' & Hr' & Hn' & Hri' & Hni'
                    & HF & HT & Hb).
    match type of Hv with _ = _ ++ [?x] => set (e := x) in * end.
    match type of Ht with _ = _ ++ ?x => set (tv := x) in * end.
    exists (e :: vs), (tv ++ ts).
    rewrite Hv', Hv, Ht', Ht, <- !app_assoc. subst e tv. simpl.
    split; [reflexivity|]. split; [reflexivity|]. split; [reflexivity|].
    split; [congruence|]. split; [congruence|]. split; [congruence|].
    split; [congruence|]. split; [|split].
    + constructor; [|done]. simpl.
      destruct (translation v) as [|c s]; simpl; split_and!;
        try reflexivity; try (split; intros; discriminate).
      * done.
      * intros ids ?. discriminate.
      * by intros ids [= <-].
    + apply Forall_app. split.
      * destruct (translation v) as [|c s] eqn:Et; constructor; [|done].
        simpl. split; [|done]. exists v. rewrite Et.
        split; [apply list_elem_of_here|done].
      * eapply Forall_impl; [exact HT|]. simpl.
        intros t ((v' & Hin & Hc) & ? & ?). split; [|done].
        exists v'. split; [by apply list_elem_of_further|done].
    + rewrite fmap_app, <- Hb. by destruct (translation v).
Qed.

Section Records.

Context (w : World).

Lemma process_video_added video_id target sub st transcript :
  fetch w video_id [sub] = Some transcript →
  let all_vocab := (extract_all w (subtitle_lines transcript) sub st).1 in
  let values := (unique_vocab_of all_vocab).*2 in
  let st' := (process_video w video_id target sub st).2 in
  ∃ vs ts,
    let n := mkNote (py_str (note_id st + 1)) (note_text video_id sub)
               None None in
    let r := mkResource (py_str (resource_id st + 1)) true target
               (resource_title video_id) (Some (resource_content video_id))
               (Some 1%Z) None (truthy_list (Some (v_id <$> vs)))
               (Some [n_id n]) None in
    (process_video w video_id target sub st).1 = Some (r_id r) ∧
    resource_data st' = resource_data st ++ [r] ∧
    vocab_data st' = vocab_data st ++ vs ∧
    translation_data st' = translation_data st ++ ts ∧
    note_data st' = note_data st ++ [n] ∧
    Forall2 (fun e v =>
               v_language e = target ∧ v_content e = original v ∧
               v_consideredCharacter e = None ∧
               v_consideredSentence e = None ∧
               v_consideredWord e = Some true ∧ v_priority e = Some 1%Z ∧
               v_notes e = None ∧
               (translation v = [] ↔ v_translations e = None) ∧
               (∀ ids, v_translations e = Some ids → length ids = 1%nat))
      vs values ∧
    Forall (fun t => (∃ v, v ∈ values ∧ t_content t = translation v) ∧
                     t_content t ≠ [] ∧ t_notes t = None) ts ∧
    vs ≫= (fun e => default [] (v_translations e)) = t_id <$> ts.
Proof.
  intros Hf all_vocab values st'. subst st' values all_vocab.
  unfold process_video. rewrite (download_subtitles_ok w _ _ _ _ Hf).
  rewrite (extract_all_pure w _ _ st (log (EvFetch video_id [sub]) st)).
  pose proof (extract_all_store w (subtitle_lines transcript) sub
    (log (EvFetch video_id [sub]) st))
    as (S1 & S2 & S3 & S4 & S5 & _ & _ & S8).
  destruct (extract_all w _ sub (log _ st)) as [all_vocab st2].
  simpl in S1, S2, S3, S4, S5, S8. cbn [fst snd].
  destruct (convert_all_added (unique_vocab_of all_vocab).*2 target st2)
    as (vs & ts & Hids & Hv & Ht & Hr & Hn & Hri & Hni & HF & HT & Hb).
  destruct (convert_all _ target st2) as [ids st3]. simpl in *. subst ids.
  exists vs, ts. unfold_store. simpl.
  pose proof (py_str_nonempty (note_id st3 + 1)) as Hne.
  destruct (py_str (note_id st3 + 1)) as [|d ds] eqn:Ed; [done|].
  simpl. rewrite Hr, Hv, Ht, Hn, Hri, S1, S2, S3, S4, S5.
  rewrite <- S8, <- Hni, Ed.
  destruct (v_id <$> vs); simpl; by repeat split.
Qed.

End Records.

Section Further.

Context (w : World).

(** ** Writing *)

Lemma length_output_files target sub st :
  length (output_files target sub st) = 4%nat.
Proof. reflexivity. Qed.

Lemma output_files_same_store target sub st st' :
  same_store st st' → output_files target sub st' = output_files target sub st.
Proof.
  intros (H1 & H2 & H3 & H4 & _). unfold output_files.
  by rewrite H1, H2, H3, H4.
Qed.

(** X3: [save_jsonl_files] leaves the lists and counters alone. The files
    it writes are the first [k] of resources, vocab, translations and
    notes, in this order and each with all the rows of its list; it returns
    normally exactly when the directory can be made and each of the four
    files can be written, and then all four are written, after the
    directory was made. *)
Theorem save_writes_a_prefix_of_the_four_files target sub st :
  let r := save_jsonl_files w target sub st in
  let files := output_files target sub st in
  same_store st r.2 ∧
  (∃ k, written (trace r.2) = written (trace st) ++ take k files) ∧
  (r.1 = Some () ↔
   mkdir w (output_dir target sub) = true ∧
   ∀ file, file ∈ files → write_file w file.1 = true) ∧
  (r.1 = Some () →
   trace r.2 = trace st ++
     EvMkdir (output_dir target sub) :: (write_event <$> files)).
Proof.
  intros r files. split; [apply save_jsonl_files_store|].
  destruct (save_jsonl_files_trace w target sub st)
    as [[Em Hr]|(Em & k & Hk & Ht & Hok & Hbad & Hiff)];
    fold r in Hr || fold r files in Ht, Hok, Hbad, Hiff.
  - rewrite Hr. simpl. split; [exists 0%nat; by rewrite app_nil_r|].
    split; [|done]. split; [done|]. intros [? _]. congruence.
  - split; [|split].
    + exists k. rewrite Ht. unfold written at 1.
      rewrite omap_app. fold (written (trace st)). f_equal. simpl.
      apply written_write_events.
    + rewrite Hiff. split.
      * intros ->. split; [done|]. intros file Hin. apply Hok.
        rewrite take_ge; [done|]. unfold files.
        rewrite length_output_files. lia.
      * intros [_ Hall].
        destruct (decide (k = 4%nat)) as [|Hne]; [done|].
        destruct (lookup_lt_is_Some_2 files k) as [file Hfile].
        { unfold files. rewrite length_output_files. lia. }
        assert (write_file w file.1 = false) as Hf.
        { apply Hbad. by rewrite lookup_drop, Nat.add_0_r. }
        rewrite Hall in Hf; [done|]. by eapply list_elem_of_lookup_2.
    + intros ->%Hiff. rewrite Ht. by rewrite take_ge by done.
Qed.

(** X4: when the script ends with status 0 the trace is that of the loop
    over the videos, in which no directory is made and no file written,
    followed by the making of the output directory of the two language
    codes and the writing of the four files, whose rows are the final
    lists: all that was collected is written, once, at the end. *)
Theorem complete_output_is_the_final_state path debug :
  (script w path debug).1 = 0%Z →
  let st := (script w path debug).2 in
  ∃ target sub before,
    parse_lang_codes (path_stem w path) = Some (target, sub) ∧
    trace st = before ++ EvMkdir (output_dir target sub) ::
                 (write_event <$> output_files target sub st) ∧
    written before = [] ∧ made_dirs before = [] ∧
    written (trace st) = output_files target sub st.
Proof.
  unfold script, main.
  destruct (parse_lang_codes (path_stem w path)) as [[target sub]|];
    [|done].
  destruct (read_lines w path) as [lines|]; [|done].
  destruct (get_openai_client w) as [client|]; [|done].
  set (st1 := video_loop w debug target sub 0 (video_ids_of lines)
                initial_state).
  destruct (save_jsonl_files_trace w target sub st1)
    as [[_ Hr]|(_ & k & _ & Ht & _ & _ & Hiff)].
  { rewrite Hr. done. }
  pose proof (save_jsonl_files_store w target sub st1) as Hs.
  destruct (save_jsonl_files w target sub st1) as [[[]|] st2]; [|done].
  cbn [fst snd] in *. intros _.
  assert (k = 4%nat) as -> by by apply Hiff.
  rewrite take_ge in Ht by (rewrite length_output_files; lia).
  destruct (video_loop_trace w debug target sub 0 (video_ids_of lines)
              initial_state) as (j & Hj & _).
  fold st1 in Hj. cbn [trace initial_state app] in Hj.
  destruct (written_video_events w sub (take j (video_ids_of lines)))
    as [Hw Hm].
  exists target, sub, (trace st1).
  rewrite (output_files_same_store target sub st1 st2 Hs).
  split; [done|]. split; [done|]. rewrite Hj. split; [done|].
  split; [done|]. rewrite Ht, Hj. unfold written at 1.
  rewrite omap_app. fold (written (take j (video_ids_of lines)
                                    ≫= video_events w sub)).
  rewrite Hw. cbn [app]. apply written_write_events.
Qed.

(** X5: when the list file cannot be read, or the API key is not set or is
    empty, the script ends with status 1 in its initial state: no
    transcript is asked for, no completion requested, nothing written. *)
Theorem no_list_or_no_key_no_run path debug :
  read_lines w path = None ∨
  getenv w (lit "OPENAI_API_KEY") = None ∨
  getenv w (lit "OPENAI_API_KEY") = Some [] →
  script w path debug = (1%Z, initial_state).
Proof.
  intros H. unfold script, main, get_openai_client.
  destruct (parse_lang_codes (path_stem w path)) as [[target sub]|];
    [|done].
  destruct (read_lines w path) as [lines|]; [|done].
  by destruct H as [?|[->| ->]].
Qed.

(** ** The loop *)


Lemma process_video_cases video_id target sub st r st' :
  process_video w video_id target sub st = (r, st') →
  (fetch w video_id [sub] = None ∧ r = None ∧ same_store st st') ∨
  (∃ transcript, fetch w video_id [sub] = Some transcript ∧ is_Some r).
Proof.
  intros Hp. destruct (fetch w video_id [sub]) as [transcript|] eqn:Hf.
  - right. exists transcript. split; [done|].
    destruct (process_video_spec w video_id target sub st transcript Hf)
      as (s' & vs & n & r' & Hp' & _).
    rewrite Hp in Hp'. by simplify_eq.
  - left. rewrite (process_video_fail w _ _ _ _ Hf) in Hp. simplify_eq.
    split; [done|]. split; [done|]. apply same_store_log.
Qed.



Lemma process_video_resource_count video_id target sub st r st1 :
  process_video w video_id target sub st = (r, st1) →
  length (resource_data st1)
  = (length (resource_data st) +
     match r with Some _ => 1 | None => 0 end)%nat.
Proof.
  intros Hp.
  destruct (fetch w video_id [sub]) as [transcript|] eqn:Hf.
  - destruct (process_video_spec w video_id target sub st transcript Hf)
      as (s' & vs & n & r' & Hp' & _ & _ & _ & _ & Hr & _).
    rewrite Hp in Hp'. simplify_eq. by rewrite Hr, length_app.
  - rewrite (process_video_fail w _ _ _ _ Hf) in Hp. simplify_eq.
    simpl. lia.
Qed.

Lemma video_loop_debug_from_one target sub idx video_ids st :
  (1 ≤ idx)%nat →
  (length (resource_data (video_loop w true target sub idx video_ids st))
   ≤ length (resource_data st) + 1)%nat.
Proof.
  revert idx st. induction video_ids as [|video_id video_ids IH];
    intros idx st Hi; [simpl; lia|].
  rewrite video_loop_cons.
  destruct (process_video w video_id target sub st) as [[id|] st1] eqn:Hp;
    apply process_video_resource_count in Hp.
  - destruct idx; [lia|]. simpl. lia.
  - specialize (IH (S idx) st1). lia.
Qed.

(** X8: with the debug limit on the loop makes at most two resources, and
    at most one from the second video on. *)
Theorem debug_limit_at_most_two_resources target sub idx video_ids st :
  let st' := video_loop w true target sub idx video_ids st in
  (length (resource_data st') ≤ length (resource_data st) + 2)%nat ∧
  ((1 ≤ idx)%nat →
   (length (resource_data st') ≤ length (resource_data st) + 1)%nat).
Proof.
  intros st'. split; [|apply video_loop_debug_from_one].
  subst st'. destruct video_ids as [|video_id video_ids]; [simpl; lia|].
  rewrite video_loop_cons.
  destruct (process_video w video_id target sub st) as [[id|] st1] eqn:Hp;
    apply process_video_resource_count in Hp.
  - destruct idx; simpl; [|lia].
    pose proof (video_loop_debug_from_one target sub 1 video_ids st1).
    lia.
  - pose proof (video_loop_debug_from_one target sub (S idx) video_ids st1).
    lia.
Qed.

(** ** The entries at the end of a run *)

Lemma truthy_list_default {A} (l : list A) :
  default [] (truthy_list (Some l)) = l.
Proof. by destruct l. Qed.

(** X9: when the script ends there are as many notes as resources, the
    [notes] of the i-th resource is the id of the i-th note alone, and that
    note names the video of the resource and has no type and no
    show-before flag. *)
Theorem each_resource_has_its_note path debug :
  let st := (script w path debug).2 in
  Forall2 (fun r n =>
             r_notes r = Some [n_id n] ∧
             n_noteType n = None ∧ n_showBeforeExercice n = None ∧
             ∃ video_id sub,
               r_title r = resource_title video_id ∧
               n_content n = note_text video_id sub)
    (resource_data st) (note_data st).
Proof.
  apply (script_invariant w (fun st =>
    Forall2 (fun r n =>
               r_notes r = Some [n_id n] ∧
               n_noteType n = None ∧ n_showBeforeExercice n = None ∧
               ∃ video_id sub,
                 r_title r = resource_title video_id ∧
                 n_content n = note_text video_id sub)
      (resource_data st) (note_data st))).
  - intros st st' (H1 & _ & _ & H4 & _) H. by rewrite H1, H4.
  - intros video_id target sub st r st' Hp H.
    destruct (process_video_cases _ _ _ _ _ _ Hp)
      as [(_ & _ & H1 & _ & _ & H4 & _)|(transcript & Hf & _)].
    + by rewrite H1, H4.
    + destruct (process_video_added w video_id target sub st transcript Hf)
        as (vs & ts & _ & Hr & _ & _ & Hn & _).
      rewrite Hp in Hr, Hn. cbn [snd] in Hr, Hn. rewrite Hr, Hn.
      apply Forall2_app; [done|]. constructor; [|constructor].
      simpl. repeat split. by exists video_id, sub.
  - constructor.
Qed.

(** X10: when the script ends, the translation ids listed by the vocab
    entries, taken in the order of the entries, are the ids of the
    translations in their order: every translation is listed by one vocab
    entry and by no other. *)
Theorem translations_are_referenced_once path debug :
  let st := (script w path debug).2 in
  vocab_data st ≫= (fun e => default [] (v_translations e))
  = t_id <$> translation_data st.
Proof.
  apply (script_invariant w (fun st =>
    vocab_data st ≫= (fun e => default [] (v_translations e))
    = t_id <$> translation_data st)).
  - intros st st' (_ & H2 & H3 & _) H. by rewrite H2, H3.
  - intros video_id target sub st r st' Hp H.
    destruct (process_video_cases _ _ _ _ _ _ Hp)
      as [(_ & _ & _ & H2 & H3 & _)|(transcript & Hf & _)].
    + by rewrite H2, H3.
    + destruct (process_video_added w video_id target sub st transcript Hf)
        as (vs & ts & _ & _ & Hv & Ht & _ & _ & _ & Hb).
      rewrite Hp in Hv, Ht. cbn [snd] in Hv, Ht.
      by rewrite Hv, Ht, bind_app, fmap_app, H, Hb.
  - done.
Qed.

(** X11: when the script ends, the vocab ids listed by the resources,
    taken in the order of the resources, are the ids of the vocab entries
    in their order: every vocab entry belongs to one resource and to no
    other, and a resource lists its entries in the order they were made. *)
Theorem vocab_is_referenced_once path debug :
  let st := (script w path debug).2 in
  resource_data st ≫= (fun r => default [] (r_vocab r))
  = v_id <$> vocab_data st.
Proof.
  apply (script_invariant w (fun st =>
    resource_data st ≫= (fun r => default [] (r_vocab r))
    = v_id <$> vocab_data st)).
  - intros st st' (H1 & H2 & _) H. by rewrite H1, H2.
  - intros video_id target sub st r st' Hp H.
    destruct (process_video_cases _ _ _ _ _ _ Hp)
      as [(_ & _ & H1 & H2 & _)|(transcript & Hf & _)].
    + by rewrite H1, H2.
    + destruct (process_video_added w video_id target sub st transcript Hf)
        as (vs & ts & _ & Hr & Hv & _).
      rewrite Hp in Hr, Hv. cbn [snd] in Hr, Hv.
      rewrite Hr, Hv, bind_app, fmap_app, H. f_equal.
      cbn [mbind list_bind r_vocab]. rewrite app_nil_r.
      apply truthy_list_default.
  - done.
Qed.

(** X12: when the script ends, no vocab content and no translation content
    has whitespace at either end, no translation content is empty, and no
    translation has notes. *)
Theorem contents_are_trimmed path debug :
  let st := (script w path debug).2 in
  Forall (fun e => trimmed (v_content e)) (vocab_data st) ∧
  Forall (fun t => trimmed (t_content t) ∧ t_content t ≠ [] ∧
                   t_notes t = None) (translation_data st).
Proof.
  apply (script_invariant w (fun st =>
    Forall (fun e => trimmed (v_content e)) (vocab_data st) ∧
    Forall (fun t => trimmed (t_content t) ∧ t_content t ≠ [] ∧
                     t_notes t = None) (translation_data st))).
  - intros st st' (_ & H2 & H3 & _) H. by rewrite H2, H3.
  - intros video_id target sub st r st' Hp [HV HT].
    destruct (process_video_cases _ _ _ _ _ _ Hp)
      as [(_ & _ & _ & H2 & H3 & _)|(transcript & Hf & _)].
    + by rewrite H2, H3.
    + destruct (process_video_added w video_id target sub st transcript Hf)
        as (vs & ts & _ & _ & Hv & Ht & _ & HF & HTs & _).
      rewrite Hp in Hv, Ht. cbn [snd] in Hv, Ht. rewrite Hv, Ht.
      pose proof (extract_all_stripped w (subtitle_lines transcript) sub st)
        as Hs.
      rewrite Forall_forall in Hs.
      assert (∀ v, v ∈ (unique_vocab_of
                (extract_all w (subtitle_lines transcript) sub st).1).*2 →
              trimmed (original v) ∧ trimmed (translation v)) as Hval.
      { intros v Hin%unique_vocab_subset.
        destruct (Hs v Hin) as (o & t & -> & ->).
        split; apply strip_trimmed. }
      split; apply Forall_app; (split; [done|]).
      * eapply Forall2_Forall_l; [exact HF|]. apply Forall_forall.
        intros v Hin e (_ & Hc & _). rewrite Hc. by apply Hval.
      * eapply Forall_impl; [exact HTs|]. simpl.
        intros t ((v & Hin & Hc) & Hne & Hnotes). rewrite Hc.
        split; [by apply Hval|]. split; [by rewrite <- Hc|done].
  - by split.
Qed.

Section InvariantAt.

Variables (target sub : str) (P : State → Prop).
Hypothesis P_same_store : ∀ st st', same_store st st' → P st → P st'.
Hypothesis P_process_video : ∀ video_id st r st',
  process_video w video_id target sub st = (r, st') → P st → P st'.

Lemma video_loop_invariant_at debug idx video_ids st :
  P st → P (video_loop w debug target sub idx video_ids st).
Proof.
  revert idx st. induction video_ids as [|video_id video_ids IH];
    intros idx st HP; [done|].
  rewrite video_loop_cons.
  destruct (process_video w video_id target sub st) as [[id|] st1] eqn:E;
    [destruct (debug && (1 <=? idx)%nat)|]; eauto.
Qed.

Lemma main_invariant_at path debug st :
  P st → P (main w path debug target sub st).2.
Proof.
  intros HP. unfold main. destruct (read_lines w path); [|done].
  destruct (get_openai_client w); [|done].
  pose proof (save_jsonl_files_store w target sub
    (video_loop w debug target sub 0 (video_ids_of l) st)) as Hs.
  destruct (save_jsonl_files w target sub _) as [[[]|] st2];
    cbn [snd] in *; eauto using video_loop_invariant_at.
Qed.

End InvariantAt.

(** X13: when the script ends, every vocab entry has the target language
    code of the file name as its language, is marked as a word with
    priority 1, has no character or sentence mark and no notes, and lists
    either no translation or exactly one. *)
Theorem vocab_entries_have_one_shape path debug target sub :
  parse_lang_codes (path_stem w path) = Some (target, sub) →
  Forall (fun e =>
            v_language e = target ∧
            v_consideredWord e = Some true ∧ v_priority e = Some 1%Z ∧
            v_consideredCharacter e = None ∧
            v_consideredSentence e = None ∧ v_notes e = None ∧
            (v_translations e = None ∨ ∃ id, v_translations e = Some [id]))
    (vocab_data (script w path debug).2).
Proof.
  intros Hparse. unfold script. rewrite Hparse.
  apply (main_invariant_at target sub (fun st =>
    Forall (fun e =>
              v_language e = target ∧
              v_consideredWord e = Some true ∧ v_priority e = Some 1%Z ∧
              v_consideredCharacter e = None ∧
              v_consideredSentence e = None ∧ v_notes e = None ∧
              (v_translations e = None ∨ ∃ id, v_translations e = Some [id]))
      (vocab_data st))).
  - intros st st' (_ & H2 & _) H. by rewrite H2.
  - intros video_id st r st' Hp H.
    destruct (process_video_cases _ _ _ _ _ _ Hp)
      as [(_ & _ & _ & H2 & _)|(transcript & Hf & _)].
    + by rewrite H2.
    + destruct (process_video_added w video_id target sub st transcript Hf)
        as (vs & ts & _ & _ & Hv & _ & _ & HF & _).
      rewrite Hp in Hv. cbn [snd] in Hv. rewrite Hv.
      apply Forall_app. split; [done|].
      eapply Forall2_Forall_l; [exact HF|]. apply Forall_forall.
      intros v _ e (Hl & _ & Hcc & Hcs & Hcw & Hpr & Hn & _ & Hone).
      repeat split; try done.
      destruct (v_translations e) as [ids|]; [right|by left].
      specialize (Hone ids eq_refl).
      destruct ids as [|id [|? ?]]; try discriminate. by exists id.
  - constructor.
Qed.

(** X14: when the script ends, every resource is immersion content in the
    target language of the file name with priority 1, has no link and no
    fact cards, and its title and its content, the watch link, are made
    from the same video id. *)
Theorem resource_entries_have_one_shape path debug target sub :
  parse_lang_codes (path_stem w path) = Some (target, sub) →
  Forall (fun r =>
            r_isImmersionContent r = true ∧ r_language r = target ∧
            r_priority r = Some 1%Z ∧ r_link r = None ∧
            r_factCards r = None ∧
            ∃ video_id,
              r_title r = resource_title video_id ∧
              r_content r = Some (resource_content video_id))
    (resource_data (script w path debug).2).
Proof.
  intros Hparse. unfold script. rewrite Hparse.
  apply (main_invariant_at target sub (fun st =>
    Forall (fun r =>
              r_isImmersionContent r = true ∧ r_language r = target ∧
              r_priority r = Some 1%Z ∧ r_link r = None ∧
              r_factCards r = None ∧
              ∃ video_id,
                r_title r = resource_title video_id ∧
                r_content r = Some (resource_content video_id))
      (resource_data st))).
  - intros st st' (H1 & _) H. by rewrite H1.
  - intros video_id st r st' Hp H.
    destruct (process_video_cases _ _ _ _ _ _ Hp)
      as [(_ & _ & H1 & _)|(transcript & Hf & _)].
    + by rewrite H1.
    + destruct (process_video_added w video_id target sub st transcript Hf)
        as (vs & ts & _ & Hr & _).
      rewrite Hp in Hr. cbn [snd] in Hr. rewrite Hr.
      apply Forall_app. split; [done|]. constructor; [|constructor].
      cbn [r_isImmersionContent r_language r_priority r_link r_factCards
           r_title r_content].
      repeat split. by exists video_id.
  - constructor.
Qed.


Lemma process_video_grows video_id target sub st r st' :
  process_video w video_id target sub st = (r, st') →
  resource_data st `prefix_of` resource_data st' ∧
  vocab_data st `prefix_of` vocab_data st' ∧
  translation_data st `prefix_of` translation_data st' ∧
  note_data st `prefix_of` note_data st'.
Proof.
  intros Hp.
  destruct (process_video_cases _ _ _ _ _ _ Hp)
    as [(_ & _ & H1 & H2 & H3 & H4 & _)|(transcript & Hf & _)].
  - by rewrite H1, H2, H3, H4.
  - destruct (process_video_added w video_id target sub st transcript Hf)
      as (vs & ts & _ & Hr & Hv & Ht & Hn & _).
    rewrite Hp in Hr, Hv, Ht, Hn. cbn [snd] in Hr, Hv, Ht, Hn.
    rewrite Hr, Hv, Ht, Hn. repeat split; by apply prefix_app_r.
Qed.

(** X16: [main] only ever appends: each of the four lists it starts from
    is a prefix of the list it ends with, so no entry is removed, moved or
    changed once it is made. *)
Theorem lists_only_grow path debug target sub st :
  let st' := (main w path debug target sub st).2 in
  resource_data st `prefix_of` resource_data st' ∧
  vocab_data st `prefix_of` vocab_data st' ∧
  translation_data st `prefix_of` translation_data st' ∧
  note_data st `prefix_of` note_data st'.
Proof.
  apply (main_invariant w (fun s =>
    resource_data st `prefix_of` resource_data s ∧
    vocab_data st `prefix_of` vocab_data s ∧
    translation_data st `prefix_of` translation_data s ∧
    note_data st `prefix_of` note_data s)).
  - intros s s' (H1 & H2 & H3 & H4 & _) H. by rewrite H1, H2, H3, H4.
  - intros video_id t s0 s r s' Hp (P1 & P2 & P3 & P4).
    destruct (process_video_grows _ _ _ _ _ _ Hp) as (G1 & G2 & G3 & G4).
    repeat split; by etrans.
  - done.
Qed.

End Further.

(** * The further properties on concrete runs *)

(** X1 on a list file with a padded id and a blank line. *)
Lemma lines_are_trimmed_and_nonblank_witness :
  strip (lit " abc123 ")
  ∈ video_ids_of [lit " abc123 "; lit "   "; lit "xyz789"] ∧
  strip (lit "hola amigo") ∈ subtitle_lines (two_lines (lit "en")).
Proof.
  destruct (lines_are_trimmed_and_nonblank
              [lit " abc123 "; lit "   "; lit "xyz789"] (two_lines (lit "en")))
    as ((_ & Hids & _) & (_ & Hlines & _)).
  split.
  - apply Hids; [apply list_elem_of_here|]. vm_compute. discriminate.
  - apply Hlines; [apply list_elem_of_here|]. vm_compute. discriminate.
Defined.

(** X2 on an object whose original is two blanks. *)
Lemma blank_original_gives_empty_content_witness :
  vocab_objects [PDict [(lit "original", PStr (lit "  "));
                        (lit "translation", PStr (lit "x"))]]
  = Some [mkVocabObject [] (strip (lit "x"))].
Proof.
  apply (blank_original_gives_empty_content
           [(lit "original", PStr (lit "  "));
            (lit "translation", PStr (lit "x"))]
           (lit "  ") (lit "x") (lit "es") initial_state).
  - vm_compute. discriminate.
  - reflexivity.
  - reflexivity.
  - reflexivity.
Defined.

(** X3 in a world whose file system accepts everything. *)
Lemma save_writes_a_prefix_of_the_four_files_witness :
  (save_jsonl_files es_en_world (lit "es") (lit "en") initial_state).1
  = Some ().
Proof.
  destruct (save_writes_a_prefix_of_the_four_files es_en_world (lit "es")
              (lit "en") initial_state) as (_ & _ & Hiff & _).
  apply Hiff. split; [reflexivity|]. intros file _. reflexivity.
Defined.

(** X4 on the run of [es_en_world]. *)
Lemma complete_output_is_the_final_state_witness :
  let st := (script es_en_world (lit "es_en.txt") true).2 in
  ∃ target sub, written (trace st) = output_files target sub st.
Proof.
  destruct (complete_output_is_the_final_state es_en_world (lit "es_en.txt")
              true eq_refl) as (target & sub & before & _ & _ & _ & _ & H).
  exists target, sub. exact H.
Defined.

(** X5 in a world without the key. *)
Lemma no_list_or_no_key_no_run_witness :
  script no_key_world (lit "es_en.txt") true = (1%Z, initial_state).
Proof.
  apply no_list_or_no_key_no_run. right. left. reflexivity.
Defined.



(** X8 from the second video on. *)
Lemma debug_limit_at_most_two_resources_witness :
  (length (resource_data
             (video_loop three_good_videos_world true (lit "apc") (lit "ar") 1
                [lit "vid2"; lit "vid3"] initial_state)) ≤ 0 + 1)%nat.
Proof.
  destruct (debug_limit_at_most_two_resources three_good_videos_world
              (lit "apc") (lit "ar") 1 [lit "vid2"; lit "vid3"]
              initial_state) as [_ H].
  apply H. lia.
Defined.

(** X13 on the run of [es_en_world]. *)
Lemma vocab_entries_have_one_shape_witness :
  Forall (fun e => v_language e = lit "es" ∧ v_priority e = Some 1%Z)
    (vocab_data (script es_en_world (lit "es_en.txt") true).2).
Proof.
  eapply Forall_impl.
  - apply (vocab_entries_have_one_shape es_en_world (lit "es_en.txt") true
             (lit "es") (lit "en")). reflexivity.
  - intros e (Hl & _ & Hp & _). split; [exact Hl|exact Hp].
Defined.

(** X14 on the run of [es_en_world]. *)
Lemma resource_entries_have_one_shape_witness :
  Forall (fun r => r_isImmersionContent r = true ∧ r_language r = lit "es")
    (resource_data (script es_en_world (lit "es_en.txt") true).2).
Proof.
  eapply Forall_impl.
  - apply (resource_entries_have_one_shape es_en_world (lit "es_en.txt") true
             (lit "es") (lit "en")). reflexivity.
  - intros r (Hi & Hl & _). split; [exact Hi|exact Hl].
Defined.


(** A run in which the third file cannot be written: the first two files
    are there, the last two are not, and the status is 1. *)
Lemma translations_fail_run :
  let '(status, st) := script translations_fail_world (lit "es_en.txt") true in
  status = 1%Z ∧
  (written (trace st)).*1
  = [lit "sets/es/youtube-es-en/resources.jsonl";
     lit "sets/es/youtube-es-en/vocab.jsonl"].
Proof. vm_compute. repeat split. Qed.
